(** * movies/omdb_integration.py: search-and-save and detail filling

    A shallow embedding of [get_or_create_genres], [fill_movie_details] and
    [search_and_save] over an explicit world: the rows of the relational
    store, the wall clock, the log and the calls made on the OMDb client.
    Exceptions are results of the error monad [M]; the remote catalogue and
    the store's row constraints are parameters of the development. *)

From Stdlib Require Import ZArith NArith Ascii String List Lia.
From stdpp Require Import base option relations gmap strings list fin_maps.

Open Scope string_scope.
Open Scope Z_scope.
Open Scope list_scope.

(** ** Text: [str.lower] and [re.sub(r"\s+", " ", _)]

    A Python [str] is a sequence of code points.  The characters of a Rocq
    [string] stand for the code points U+0000 to U+00FF; on such strings
    [str.lower] works character by character and stays in that range. *)

Module Text.

(** [str.lower] on one code point below U+0100: A-Z and the capital letters
    U+00C0-U+00DE (the multiplication sign U+00D7 is no letter) move up by
    32; everything else stays. *)
Definition lower_char (c : ascii) : ascii :=
  let n := N_of_ascii c in
  if ((65 <=? n) && (n <=? 90) ||
      (192 <=? n) && (n <=? 222) && negb (n =? 215))%N
  then ascii_of_N (n + 32)
  else c.

(** [search.lower()] *)
Fixpoint lower (s : string) : string :=
  match s with
  | EmptyString => EmptyString
  | String c r => String (lower_char c) (lower r)
  end.

(** The class [\s] of a [str] pattern, below U+0100: TAB, LF, VT, FF, CR,
    the separators U+001C-U+001F, SPACE, NEL (U+0085) and NBSP (U+00A0). *)
Definition is_space (c : ascii) : bool :=
  let n := N_of_ascii c in
  ((9 <=? n) && (n <=? 13) || (28 <=? n) && (n <=? 32) ||
   (n =? 133) || (n =? 160))%N.

(** [re.sub(r"\s+", " ", s)], scanning left to right: [in_run] tells that
    the previous character belonged to a whitespace run, whose single
    replacement space has already been emitted ([\s+] is greedy, so a
    maximal run is one match). *)
Fixpoint sub_spaces (in_run : bool) (s : string) : string :=
  match s with
  | EmptyString => EmptyString
  | String c r =>
      if is_space c
      then (if in_run then sub_spaces true r
            else String " " (sub_spaces true r))
      else String c (sub_spaces false r)
  end.

Definition collapse_whitespace (s : string) : string := sub_spaces false s.

(** Line 52: [re.sub(r"\s+", " ", search.lower())]. *)
Definition normalized_search_term (search : string) : string :=
  collapse_whitespace (lower search).

(** *** Strings that differ only in whitespace run lengths or letter case *)

(** [a] is a capital letter and [b] the same letter in lower case. *)
Definition capital_of (a b : ascii) : Prop :=
  let n := N_of_ascii a in
  ((65 <= n <= 90) \/ (192 <= n <= 214) \/ (216 <= n <= 222))%N /\
  N_of_ascii b = (n + 32)%N.

(** One elementary difference: a letter changes case, or a whitespace run
    grows by one whitespace character, after or before one it already
    has. *)
Inductive edit : string -> string -> Prop :=
  | edit_case (p q : string) (a b : ascii) :
      capital_of a b ->
      edit (p +:+ String a q) (p +:+ String b q)
  | edit_run (p q : string) (w w' : ascii) :
      is_space w = true -> is_space w' = true ->
      edit (p +:+ String w q) (p +:+ String w (String w' q))
  | edit_run_before (p q : string) (w w' : ascii) :
      is_space w = true -> is_space w' = true ->
      edit (p +:+ String w q) (p +:+ String w' (String w q)).

(** Any number of such differences, in either direction. *)
Definition same_up_to_spacing_and_case : relation string := rtsc edit.

Definition starts_with_space (s : string) : bool :=
  match s with
  | EmptyString => false
  | String c _ => is_space c
  end.

Fixpoint ends_with_space (s : string) : bool :=
  match s with
  | EmptyString => false
  | String c EmptyString => is_space c
  | String _ r => ends_with_space r
  end.

End Text.

(** ** Data *)

(** A search result of the OMDb client ([omdb_movie] in the source). *)
Module OmdbMovie.
Record t := make { imdb_id : string; title : string; year : Z }.
End OmdbMovie.

(** The answer of [get_by_imdb_id] ([movie_details] in the source). *)
Module Details.
Record t := make {
  title : string;
  year : Z;
  plot : string;
  runtime_minutes : Z;
  genres : list string
}.
End Details.

(** Modelled from the spec: movies/models.py is not part of the sources at
    hand.  A Movie is identified by its unique external catalogue ID, which
    keys the movie table; plot and runtime are unknown on a partial record;
    the full-record flag tells a fetched record from a partial one. *)
Module Movie.
Record t := make {
  imdb_id : string;
  title : string;
  year : Z;
  plot : option string;
  runtime_minutes : option Z;
  is_full_record : bool
}.

(** The row that [get_or_create(imdb_id=.., defaults={title, year})]
    inserts: the remaining columns take their defaults. *)
Definition partial (imdb_id title : string) (year : Z) : t :=
  make imdb_id title year None None false.
End Movie.

(** Modelled from the spec: a Genre is identified by its unique name, so a
    Genre reference is its name and the genre table is a set of names. *)
Definition Genre := string.

(** Modelled from the spec: a SearchTerm is identified by its normalized
    term and carries the last-search timestamp. *)
Module SearchTerm.
Record t := make { term : string; last_search : Z }.
End SearchTerm.

(** Timestamps are microseconds, the resolution of [datetime]. *)
Definition timedelta_days (d : Z) : Z := d * 86400000000.
Definition hours (h : Z) : Z := h * 3600000000.

Inductive exn := ClientError | DatabaseError | ValueError.

Inductive Level := INFO | WARNING.
Record LogRecord := { level : Level; message : string }.

Inductive ApiCall :=
  | GetByImdbId (imdb_id : string)
  | SearchCall (search : string).

(** The rows of the relational store.  [movie_genres] is the many-to-many
    table: pairs of a movie's ID and a genre's name. *)
Record Store := {
  movie_table : gmap string Movie.t;
  genre_table : gset Genre;
  movie_genres : gset (string * Genre);
  search_term_table : gmap string Z
}.

Definition genres_of (db : Store) (imdb_id : string) : gset Genre :=
  set_map snd (filter (λ p, p.1 = imdb_id) (movie_genres db)).

Section Integration.

(** The catalogue behind the client is an opaque state of the outside
    world; a call answers, takes time and may change that state. *)
Context {Remote : Type}.

Record Reply (A : Type) := {
  answer : A;
  elapsed : N;
  remote_after : Remote
}.
Arguments answer {A}.
Arguments elapsed {A}.
Arguments remote_after {A}.

(** What the client does, as far as this module can tell.
    [get_by_imdb_id] answers [None] when it raises its error.  [search]
    is a generator: it yields the results of [answer.1] and, when
    [answer.2] is set, raises after the last of them. *)
Context (omdb_get_by_imdb_id : Remote → string → Reply (option Details.t)).
Context (omdb_search : Remote → string → Reply (list OmdbMovie.t * bool)).

(** The store's constraints on a movie row: a write of a row that violates
    them raises. *)
Context (movie_row_ok : Movie.t → bool).

Record World := {
  db : Store;
  clock : Z;
  remote : Remote;
  log : list LogRecord;
  api_calls : list ApiCall
}.

Definition with_db (f : Store → Store) (w : World) : World :=
  {| db := f (db w); clock := clock w; remote := remote w;
     log := log w; api_calls := api_calls w |}.

(** ** The monad of the module's code: state and exceptions *)

Inductive Result (A : Type) :=
  | Ok (a : A) (w : World)
  | Raise (e : exn) (w : World).
Arguments Ok {A}.
Arguments Raise {A}.

Definition M (A : Type) : Type := World → Result A.

#[export] Instance M_ret : MRet M := λ A a w, Ok a w.
#[export] Instance M_bind : MBind M := λ A B f m w,
  match m w with
  | Ok a w' => f a w'
  | Raise e w' => Raise e w'
  end.

Definition raise {A} (e : exn) : M A := λ w, Raise e w.

Definition world_after {A} (r : Result A) : World :=
  match r with Ok _ w => w | Raise _ w => w end.

(** A Python generator: the computations that produce its items, each run
    only when the consumer asks for the next item. *)
Definition generator (A : Type) : Type := list (M A).

(** [for x in gen: body] *)
Fixpoint for_in {A} (gen : generator A) (body : A → M unit) : M unit :=
  match gen with
  | [] => mret tt
  | next :: gen' => x ← next; body x;; for_in gen' body
  end.

(** ** Primitives: clock, logger, store, client *)

(** [django.utils.timezone.now()] *)
Definition now : M Z := λ w, Ok (clock w) w.

Definition append_log (entry : LogRecord) (w : World) : World :=
  {| db := db w; clock := clock w; remote := remote w;
     log := log w ++ [entry]; api_calls := api_calls w |}.

Definition emit (l : Level) (msg : string) : M unit := λ w,
  Ok tt (append_log {| level := l; message := msg |} w).

Definition logger_warning : string → M unit := emit WARNING.
Definition logger_info : string → M unit := emit INFO.

(** [Genre.objects.get_or_create(name=genre_name)] *)
Definition Genre_get_or_create (name : string) : M (Genre * bool) := λ w,
  if decide (name ∈ genre_table (db w)) then Ok (name, false) w
  else Ok (name, true)
          (with_db (λ d, {| movie_table := movie_table d;
                            genre_table := {[ name ]} ∪ genre_table d;
                            movie_genres := movie_genres d;
                            search_term_table := search_term_table d |}) w).

Definition put_search_term (term : string) (ts : Z) (d : Store) : Store :=
  {| movie_table := movie_table d; genre_table := genre_table d;
     movie_genres := movie_genres d;
     search_term_table := <[term := ts]> (search_term_table d) |}.

(** Modelled from the spec: the declaration of [SearchTerm.last_search] is
    in movies/models.py.  Saving a SearchTerm row stamps its last-search
    timestamp with the current time; a row is saved when it is created and
    by [search_term.save()]. *)
Definition SearchTerm_get_or_create (term : string)
  : M (SearchTerm.t * bool) := λ w,
  match search_term_table (db w) !! term with
  | Some ts => Ok (SearchTerm.make term ts, false) w
  | None => Ok (SearchTerm.make term (clock w), true)
               (with_db (put_search_term term (clock w)) w)
  end.

(** [search_term.save()] *)
Definition SearchTerm_save (search_term : SearchTerm.t) : M unit := λ w,
  Ok tt (with_db (put_search_term (SearchTerm.term search_term) (clock w)) w).

Definition put_movie (movie : Movie.t) (d : Store) : Store :=
  {| movie_table := <[Movie.imdb_id movie := movie]> (movie_table d);
     genre_table := genre_table d; movie_genres := movie_genres d;
     search_term_table := search_term_table d |}.

(** [Movie.objects.get_or_create(imdb_id=.., defaults={"title": ..,
    "year": ..})]: the defaults are used only when the row is created. *)
Definition Movie_get_or_create (imdb_id title : string) (year : Z)
  : M (Movie.t * bool) := λ w,
  match movie_table (db w) !! imdb_id with
  | Some movie => Ok (movie, false) w
  | None =>
      let movie := Movie.partial imdb_id title year in
      if movie_row_ok movie then Ok (movie, true) (with_db (put_movie movie) w)
      else Raise DatabaseError w
  end.

(** [movie.save()] *)
Definition Movie_save (movie : Movie.t) : M unit := λ w,
  if movie_row_ok movie then Ok tt (with_db (put_movie movie) w)
  else Raise DatabaseError w.

Definition put_movie_genres (g : gset (string * Genre)) (d : Store) : Store :=
  {| movie_table := movie_table d; genre_table := genre_table d;
     movie_genres := g; search_term_table := search_term_table d |}.

(** [movie.genres]: the many-to-many relation of a movie can be used only
    once the movie has a primary key, that is, once it is a row of the
    store; on a movie that is not, the access raises [ValueError] and
    nothing is written. *)
Definition movie_genres_manager (movie : Movie.t) : M unit := λ w,
  match movie_table (db w) !! Movie.imdb_id movie with
  | Some _ => Ok tt w
  | None => Raise ValueError w
  end.

Definition write_db (f : Store → Store) : M unit := λ w, Ok tt (with_db f w).

(** [movie.genres.clear()] *)
Definition genres_clear (movie : Movie.t) : M unit :=
  movie_genres_manager movie;;
  write_db (λ d, put_movie_genres
                   (filter (λ p, p.1 ≠ Movie.imdb_id movie) (movie_genres d))
                   d).

(** [movie.genres.add(genre)] *)
Definition genres_add (movie : Movie.t) (genre : Genre) : M unit :=
  movie_genres_manager movie;;
  write_db (λ d, put_movie_genres
                   ({[ (Movie.imdb_id movie, genre) ]} ∪ movie_genres d) d).

(** A call on the client: it is recorded, takes its time and moves the
    catalogue on. *)
Definition called {A} (c : ApiCall) (r : Reply A) (w : World) : World :=
  {| db := db w; clock := clock w + Z.of_N (elapsed r);
     remote := remote_after r; log := log w;
     api_calls := api_calls w ++ [c] |}.

(** [omdb_client.get_by_imdb_id(imdb_id)] *)
Definition client_get_by_imdb_id (imdb_id : string) : M Details.t := λ w,
  let r := omdb_get_by_imdb_id (remote w) imdb_id in
  match answer r with
  | Some movie_details => Ok movie_details (called (GetByImdbId imdb_id) r w)
  | None => Raise ClientError (called (GetByImdbId imdb_id) r w)
  end.

(** The generator that yields [results] and then, if [fails], raises the
    client's error. *)
Definition yields (results : list OmdbMovie.t) (fails : bool)
  : generator OmdbMovie.t :=
  map mret results ++ (if fails then [raise ClientError] else []).

(** [omdb_client.search(search)] *)
Definition client_search (search : string) : M (generator OmdbMovie.t) := λ w,
  let r := omdb_search (remote w) search in
  Ok (yields (answer r).1 (answer r).2) (called (SearchCall search) r w).

(** ** The module's functions *)

(** Lines 16-20. *)
Definition get_or_create_genres (genre_names : list string)
  : generator Genre :=
  map (λ genre_name,
         '(genre, created) ← Genre_get_or_create genre_name; mret genre)
      genre_names.

(** Lines 22-43.  The function mutates its argument; the movie object as
    the caller sees it afterwards is the result. *)
Definition fill_movie_details (movie : Movie.t) : M Movie.t :=
  if Movie.is_full_record movie then
    logger_warning ("'" +:+ Movie.title movie +:+ "' is already a full record.");;
    mret movie
  else
    movie_details ← client_get_by_imdb_id (Movie.imdb_id movie);
    let movie :=
      Movie.make (Movie.imdb_id movie)
                 (Details.title movie_details)
                 (Details.year movie_details)
                 (Some (Details.plot movie_details))
                 (Some (Details.runtime_minutes movie_details))
                 (Movie.is_full_record movie) in
    genres_clear movie;;
    for_in (get_or_create_genres (Details.genres movie_details))
           (λ genre, genres_add movie genre);;
    let movie :=
      Movie.make (Movie.imdb_id movie) (Movie.title movie) (Movie.year movie)
                 (Movie.plot movie) (Movie.runtime_minutes movie) true in
    Movie_save movie;;
    mret movie.

(** Lines 66-77: the body of the loop over the search results. *)
Definition save_result (omdb_movie : OmdbMovie.t) : M unit :=
  logger_info ("Saving movie: '" +:+ OmdbMovie.title omdb_movie +:+ "' / '"
               +:+ OmdbMovie.imdb_id omdb_movie +:+ "'");;
  '(movie, created) ← Movie_get_or_create (OmdbMovie.imdb_id omdb_movie)
                         (OmdbMovie.title omdb_movie)
                         (OmdbMovie.year omdb_movie);
  if created : bool then
    logger_info ("Movie created: '" +:+ Movie.title movie +:+ "'")
  else mret tt.

(** Lines 46-79. *)
Definition search_and_save (search : string) : M unit :=
  let normalized_search_term := Text.normalized_search_term search in
  '(search_term, created) ← SearchTerm_get_or_create normalized_search_term;
  t ← now;
  if negb created &&
     bool_decide (SearchTerm.last_search search_term > t - timedelta_days 1)
  then
    logger_warning ("Search for '" +:+ normalized_search_term +:+
                    "' was performed in the past 24 hours so not searching again.")
  else
    results ← client_search search;
    for_in results save_result;;
    SearchTerm_save search_term.

(** ** Runs of operations *)

Inductive Op :=
  | Fill (movie : Movie.t)
  | Search (search : string)
  | Sleep (d : N).

(** An exception ends the operation, not the world: what was written
    before it stays written. *)
Definition run_op (op : Op) (w : World) : World :=
  match op with
  | Fill movie => world_after (fill_movie_details movie w)
  | Search search => world_after (search_and_save search w)
  | Sleep d => {| db := db w; clock := clock w + Z.of_N d; remote := remote w;
                  log := log w; api_calls := api_calls w |}
  end.

(** The worlds a run goes through, the first one included. *)
Fixpoint history (ops : list Op) (w : World) : list World :=
  w :: match ops with
       | [] => []
       | op :: ops' => history ops' (run_op op w)
       end.

(** ** Vocabulary of the properties *)

Definition partial_of (omdb_movie : OmdbMovie.t) : Movie.t :=
  Movie.partial (OmdbMovie.imdb_id omdb_movie) (OmdbMovie.title omdb_movie)
                (OmdbMovie.year omdb_movie).

(** The movie as lines 35-42 leave it. *)
Definition filled (movie : Movie.t) (movie_details : Details.t) : Movie.t :=
  Movie.make (Movie.imdb_id movie)
             (Details.title movie_details) (Details.year movie_details)
             (Some (Details.plot movie_details))
             (Some (Details.runtime_minutes movie_details)) true.

(** The condition of line 56 on the world in which the call starts. *)
Definition searched_recently (search : string) (w : World) : bool :=
  match search_term_table (db w) !! Text.normalized_search_term search with
  | Some last_search => bool_decide (last_search > clock w - timedelta_days 1)
  | None => false
  end.

(** Lines 64-79, for a search term already looked up. *)
Definition run_search (search : string) (search_term : SearchTerm.t)
  : M unit :=
  results ← client_search search;
  for_in results save_result;;
  SearchTerm_save search_term.

(** The first of the results that carries a given ID. *)
Definition first_with (imdb_id : string) (results : list OmdbMovie.t)
  : option OmdbMovie.t :=
  find (λ r, bool_decide (OmdbMovie.imdb_id r = imdb_id)) results.

(** The log records of lines 28, 58, 67 and 77. *)
Definition already_full_entry (movie : Movie.t) : LogRecord :=
  {| level := WARNING;
     message := "'" +:+ Movie.title movie +:+ "' is already a full record." |}.

Definition searched_recently_entry (normalized_search_term : string)
  : LogRecord :=
  {| level := WARNING;
     message := "Search for '" +:+ normalized_search_term +:+
                "' was performed in the past 24 hours so not searching again." |}.

Definition saving_entry (omdb_movie : OmdbMovie.t) : LogRecord :=
  {| level := INFO;
     message := "Saving movie: '" +:+ OmdbMovie.title omdb_movie +:+ "' / '"
                +:+ OmdbMovie.imdb_id omdb_movie +:+ "'" |}.

Definition created_entry (movie : Movie.t) : LogRecord :=
  {| level := INFO;
     message := "Movie created: '" +:+ Movie.title movie +:+ "'" |}.

(** The movie table after get-or-create on one result, and on a list of
    results in order. *)
Definition add_row (tbl : gmap string Movie.t) (omdb_movie : OmdbMovie.t)
  : gmap string Movie.t :=
  match tbl !! OmdbMovie.imdb_id omdb_movie with
  | Some _ => tbl
  | None => <[OmdbMovie.imdb_id omdb_movie := partial_of omdb_movie]> tbl
  end.

Definition add_rows (results : list OmdbMovie.t) (tbl : gmap string Movie.t)
  : gmap string Movie.t :=
  foldl add_row tbl results.

(** Everything of a world but its movie table and its log. *)
Definition rest_of (w : World) :=
  (genre_table (db w), movie_genres (db w), search_term_table (db w),
   clock w, remote w, api_calls w).

(** A row that is stored stays as it is, and nothing but the movie table
    and the log is touched. *)
Definition keeps (w w' : World) : Prop :=
  rest_of w' = rest_of w ∧
  ∀ imdb_id movie, movie_table (db w) !! imdb_id = Some movie →
                   movie_table (db w') !! imdb_id = Some movie.

Definition stored_flag (imdb_id : string) (w : World) : option bool :=
  Movie.is_full_record <$> movie_table (db w) !! imdb_id.

(** Adjacent pairs of a flag trace where the flag goes from false to true,
    and where a true flag is lost. *)
Fixpoint rises (tr : list (option bool)) : nat :=
  match tr with
  | Some false :: ((Some true :: _) as tr') => S (rises tr')
  | _ :: tr' => rises tr'
  | [] => 0%nat
  end.

Fixpoint falls (tr : list (option bool)) : nat :=
  match tr with
  | Some true :: ((Some true :: _) as tr') => falls tr'
  | Some true :: ((_ :: _) as tr') => S (falls tr')
  | _ :: tr' => falls tr'
  | [] => 0%nat
  end.

End Integration.

Arguments answer {Remote A}.
Arguments elapsed {Remote A}.
Arguments remote_after {Remote A}.
Arguments Ok {Remote A}.
Arguments Raise {Remote A}.

(** ** Sample catalogues, constraints and worlds *)

Module Sample.

(** A catalogue without state that answers every search alike, after
    two seconds. *)
Definition search_yields (results : list OmdbMovie.t) (fails : bool)
  : unit → string → Reply (list OmdbMovie.t * bool) :=
  λ _ _, {| answer := (results, fails); elapsed := 2000000;
            remote_after := tt |}.

Definition details_are (movie_details : option Details.t)
  : unit → string → Reply (option Details.t) :=
  λ _ _, {| answer := movie_details; elapsed := 2000000;
            remote_after := tt |}.

Definition any_row : Movie.t → bool := λ _, true.

(** A store that refuses a negative year. *)
Definition year_not_negative : Movie.t → bool :=
  λ movie, bool_decide (0 ≤ Movie.year movie).

Definition star_wars := OmdbMovie.make "tt0076759" "Star Wars" 1977.
Definition empire := OmdbMovie.make "tt0080684" "The Empire Strikes Back" 1980.
Definition undated := OmdbMovie.make "tt0000000" "Untitled" (-1).

Definition star_wars_details :=
  Details.make "Star Wars: Episode IV - A New Hope" 1977
               "Luke Skywalker joins forces with a Jedi Knight." 121
               ["Action"; "Drama"].

Definition star_wars_full :=
  Movie.make "tt0076759" "Star Wars: Episode IV - A New Hope" 1977
             (Some "Luke Skywalker joins forces with a Jedi Knight.")
             (Some 121) true.

Definition empty_store : Store :=
  {| movie_table := ∅; genre_table := ∅; movie_genres := ∅;
     search_term_table := ∅ |}.

Definition world_of (d : Store) (t : Z) : World (Remote := unit) :=
  {| db := d; clock := t; remote := tt; log := []; api_calls := [] |}.

(** Noon of some day, in microseconds. *)
Definition noon : Z := 1700000000000000.

(** "star wars" was searched [ago] microseconds before [noon]. *)
Definition searched (ago : Z) : World (Remote := unit) :=
  world_of {| movie_table := ∅; genre_table := ∅; movie_genres := ∅;
              search_term_table := {[ "star wars" := noon - ago ]} |} noon.

(** The genre Action exists; Star Wars is a partial record filed under
    Comedy, which does not exist as a genre of the response. *)
Definition with_partial : World (Remote := unit) :=
  world_of {| movie_table := {[ "tt0076759" := partial_of star_wars ]};
              genre_table := {[ "Action"; "Comedy" ]};
              movie_genres := {[ ("tt0076759", "Comedy") ]};
              search_term_table := ∅ |} noon.

Definition with_full : World (Remote := unit) :=
  world_of {| movie_table := {[ "tt0076759" := star_wars_full ]};
              genre_table := {[ "Action"; "Drama" ]};
              movie_genres := {[ ("tt0076759", "Action");
                                 ("tt0076759", "Drama") ]};
              search_term_table := ∅ |} noon.

End Sample.

(** ** Shape of a normalized search term *)

Module Normal.
Import Text.

Fixpoint all_space (s : string) : bool :=
  match s with
  | EmptyString => true
  | String c r => is_space c && all_space r
  end.

(** No character of [s] is changed by [str.lower]. *)
Fixpoint lowercase (s : string) : bool :=
  match s with
  | EmptyString => true
  | String c r => bool_decide (lower_char c = c) && lowercase r
  end.

(** Every whitespace character of [s] is a plain space that does not
    follow another whitespace character; [after_space] tells that the
    character before [s] was one. *)
Fixpoint single_spaced (after_space : bool) (s : string) : bool :=
  match s with
  | EmptyString => true
  | String c r =>
      if is_space c
      then bool_decide (c = " "%char) && negb after_space &&
           single_spaced true r
      else single_spaced false r
  end.

Definition normal (s : string) : bool := lowercase s && single_spaced false s.

(** [s] without its whitespace characters. *)
Fixpoint remove_spaces (s : string) : string :=
  match s with
  | EmptyString => EmptyString
  | String c r => if is_space c then remove_spaces r
                  else String c (remove_spaces r)
  end.

End Normal.

(** ** Line 52 beyond U+00FF

    A second model of line 52, on a [str] as the list of its code points.
    It reaches as far as U+017F (Basic Latin, Latin-1 Supplement and Latin
    Extended-A); below U+0180 the lowercase and the uppercase of a
    character do not depend on its neighbours, so that [str.lower] and
    [str.upper] of a string are the concatenations of those of its
    characters.  On a string with a code point from U+0180 on, the model
    answers [None]. *)

Module Wide.

Definition between (lo hi c : N) : bool := ((lo <=? c) && (c <=? hi))%N.

(** The class [\s] of a [str] pattern, on every code point. *)
Definition is_space (c : N) : bool :=
  between 9 13 c || between 28 32 c || (c =? 133)%N || (c =? 160)%N ||
  (c =? 5760)%N || between 8192 8202 c || (c =? 8232)%N || (c =? 8233)%N ||
  (c =? 8239)%N || (c =? 8287)%N || (c =? 12288)%N.

(** [chr(c).lower()], for [c] below U+0180. *)
Definition lower_cp (c : N) : option (list N) :=
  if (384 <=? c)%N then None
  else if between 65 90 c || between 192 222 c && negb (c =? 215)%N
       then Some [c + 32]%N
  else if (c =? 304)%N then Some [105; 775]%N
  else if between 256 311 c && N.even c || between 313 328 c && N.odd c ||
          between 330 375 c && N.even c || between 377 382 c && N.odd c
       then Some [c + 1]%N
  else if (c =? 376)%N then Some [255%N]
  else Some [c].

(** [chr(c).upper()], for [c] below U+0180. *)
Definition upper_cp (c : N) : option (list N) :=
  if (384 <=? c)%N then None
  else if between 97 122 c || between 224 254 c && negb (c =? 247)%N
       then Some [c - 32]%N
  else if (c =? 181)%N then Some [924%N]
  else if (c =? 223)%N then Some [83; 83]%N
  else if (c =? 255)%N then Some [376%N]
  else if (c =? 305)%N then Some [73%N]
  else if (c =? 329)%N then Some [700; 78]%N
  else if (c =? 383)%N then Some [83%N]
  else if between 256 311 c && N.odd c || between 313 328 c && N.even c ||
          between 330 375 c && N.odd c || between 377 382 c && N.even c
       then Some [c - 1]%N
  else Some [c].

(** [s.lower()] *)
Fixpoint lower (s : list N) : option (list N) :=
  match s with
  | [] => Some []
  | c :: r =>
      match lower_cp c, lower r with
      | Some l, Some r' => Some (l ++ r')
      | _, _ => None
      end
  end.

(** [re.sub(r"\s+", " ", s)], as [Text.sub_spaces]. *)
Fixpoint sub_spaces (in_run : bool) (s : list N) : list N :=
  match s with
  | [] => []
  | c :: r =>
      if is_space c
      then (if in_run then sub_spaces true r else 32%N :: sub_spaces true r)
      else c :: sub_spaces false r
  end.

(** Line 52. *)
Definition normalized_search_term (search : list N) : option (list N) :=
  sub_spaces false <$> lower search.

(** One character is the capital or the small form of the other. *)
Definition case_variant (a b : N) : Prop :=
  a = b ∨ upper_cp a = Some [b] ∨ upper_cp b = Some [a] ∨
  lower_cp a = Some [b] ∨ lower_cp b = Some [a].

(** Two strings differ, character for character, in letter case only. *)
Definition differ_in_case_only : list N → list N → Prop :=
  Forall2 case_variant.

(** The code points of a string of the first model. *)
Fixpoint codes (s : string) : list N :=
  match s with
  | EmptyString => []
  | String c r => N_of_ascii c :: codes r
  end.

End Wide.

(** ** Consuming a generator, and invariants of a world *)

(** [list(gen)] *)
Fixpoint collect {Remote A : Type} (gen : @generator Remote A)
  : @M Remote (list A) :=
  match gen with
  | [] => mret []
  | next :: gen' => x ← next; xs ← collect gen'; mret (x :: xs)
  end.

(** No last-search timestamp lies in the future. *)
Definition stamps_in_the_past {Remote : Type} (w : @World Remote) : Prop :=
  ∀ term last_search,
    search_term_table (db w) !! term = Some last_search →
    last_search ≤ clock w.

(** The clock does not go back and no timestamp decreases. *)
Definition not_earlier {Remote : Type} (w w' : @World Remote) : Prop :=
  clock w ≤ clock w' ∧
  ∀ term last_search,
    search_term_table (db w) !! term = Some last_search →
    ∃ last_search', search_term_table (db w') !! term = Some last_search' ∧
                    last_search ≤ last_search'.

(** Nothing that [w] stores is missing from [w']: genres, movie IDs and
    search terms. *)
Definition nothing_lost {Remote : Type} (w w' : @World Remote) : Prop :=
  genre_table (db w) ⊆ genre_table (db w') ∧
  dom (movie_table (db w)) ⊆ dom (movie_table (db w')) ∧
  dom (search_term_table (db w)) ⊆ dom (search_term_table (db w')).

(** * Properties *)

(** ** Normalization of the search string *)

Module TextFacts.
Import Text.

Ltac by_character c :=
  destruct c as [[] [] [] [] [] [] [] []]; vm_compute; reflexivity.

Lemma is_space_lower_char (c : ascii) : is_space (lower_char c) = is_space c.
Proof. by_character c. Qed.

Ltac split_tests :=
  repeat match goal with
         | |- context [(?a <=? ?b)%N] => destruct (N.leb_spec a b)
         | |- context [(?a =? ?b)%N] => destruct (N.eqb_spec a b)
         end; simpl; try reflexivity; try lia.

Lemma lower_char_capital (a b : ascii) :
  capital_of a b → lower_char a = b ∧ lower_char b = b.
Proof.
  intros [Hrange Hb].
  assert (Eb : b = ascii_of_N (N_of_ascii a + 32))
    by (rewrite <- Hb; symmetry; apply ascii_N_embedding).
  split.
  - rewrite Eb. unfold lower_char. clear Hb Eb. split_tests.
  - unfold lower_char. rewrite Hb. clear Eb. split_tests.
Qed.

Lemma lower_app (p q : string) : lower (p +:+ q) = lower p +:+ lower q.
Proof. induction p as [|c p IH]; simpl; [reflexivity | by rewrite IH]. Qed.

Lemma sub_spaces_after (p t t' : string) :
  (∀ r, sub_spaces r t = sub_spaces r t') →
  ∀ r, sub_spaces r (p +:+ t) = sub_spaces r (p +:+ t').
Proof.
  intros Ht. induction p as [|c p IH]; intros r; simpl; [apply Ht |].
  destruct (is_space c), r; by rewrite ?IH.
Qed.

Lemma edit_normalized (s s' : string) :
  edit s s' → normalized_search_term s = normalized_search_term s'.
Proof.
  unfold normalized_search_term, collapse_whitespace.
  intros [p q a b Hab | p q w w' Hw Hw' | p q w w' Hw Hw'];
    rewrite !lower_app; apply sub_spaces_after; intros r; simpl.
  - destruct (lower_char_capital a b Hab) as [-> ->]. reflexivity.
  - rewrite !is_space_lower_char, Hw, Hw'. by destruct r.
  - rewrite !is_space_lower_char, Hw, Hw'. by destruct r.
Qed.

Lemma same_normalized (s s' : string) :
  same_up_to_spacing_and_case s s' →
  normalized_search_term s = normalized_search_term s'.
Proof.
  induction 1 as [s | s t u [Hst | Hts] _ IH]; [reflexivity | |].
  - by rewrite (edit_normalized _ _ Hst).
  - by rewrite <- (edit_normalized _ _ Hts).
Qed.

Lemma sub_spaces_in_run_start (t : string) :
  starts_with_space (sub_spaces true t) = false.
Proof.
  induction t as [|c t IH]; simpl; [reflexivity |].
  destruct (is_space c) eqn:Hc; simpl; [exact IH | exact Hc].
Qed.

Lemma ends_with_space_lower (s : string) :
  ends_with_space (lower s) = ends_with_space s.
Proof.
  induction s as [|c s IH]; simpl; [reflexivity |].
  destruct s as [|c' s]; simpl in *; [apply is_space_lower_char | exact IH].
Qed.

Lemma ends_with_space_cons (c : ascii) (body : string) :
  ends_with_space (String c body) =
  match body with EmptyString => is_space c | _ => ends_with_space body end.
Proof. by destruct body. Qed.

Lemma leading_run_kept (s : string) :
  starts_with_space s = true →
  ∃ rest, normalized_search_term s = String " " rest ∧
          starts_with_space rest = false.
Proof.
  destruct s as [|c s]; simpl; [discriminate |]. intros Hc.
  unfold normalized_search_term, collapse_whitespace; simpl.
  rewrite is_space_lower_char, Hc.
  eexists; split; [reflexivity | apply sub_spaces_in_run_start].
Qed.

Lemma trailing_run_any (t : string) :
  ends_with_space t = true →
  ∀ r, (r = true ∧ sub_spaces r t = EmptyString) ∨
       (∃ body, sub_spaces r t = body +:+ " " ∧
                ends_with_space body = false).
Proof.
  induction t as [|c t IH]; [discriminate |].
  rewrite ends_with_space_cons. destruct t as [|c' t].
  - intros Hc r. simpl. rewrite Hc. destruct r; [by left |].
    right. by exists EmptyString.
  - intros He r. specialize (IH He). remember (String c' t) as t' eqn:Et.
    simpl. destruct (is_space c) eqn:Hc.
    + destruct (IH true) as [[_ E] | (body & E & Hb)].
      * rewrite E. destruct r; [by left |]. right. by exists EmptyString.
      * right. destruct r; [by exists body |].
        exists (String " " body). rewrite E. split; [reflexivity |].
        rewrite ends_with_space_cons. destruct body as [|b body]; [| exact Hb].
        pose proof (sub_spaces_in_run_start t') as Hs. by rewrite E in Hs.
    + destruct (IH false) as [[? _] | (body & E & Hb)]; [discriminate |].
      right. exists (String c body). rewrite E. split; [reflexivity |].
      rewrite ends_with_space_cons. by destruct body.
Qed.

Lemma trailing_run_kept (s : string) :
  ends_with_space s = true →
  ∃ body, normalized_search_term s = body +:+ " " ∧
          ends_with_space body = false.
Proof.
  intros Hs. rewrite <- ends_with_space_lower in Hs.
  destruct (trailing_run_any _ Hs false) as [[? _] | H]; [discriminate | exact H].
Qed.

End TextFacts.

(** ** The two models of line 52 *)

Module WideFacts.
Import Wide.

Lemma lower_cp_code (c : ascii) :
  lower_cp (N_of_ascii c) = Some [N_of_ascii (Text.lower_char c)].
Proof. TextFacts.by_character c. Qed.

Lemma is_space_code (c : ascii) :
  is_space (N_of_ascii c) = Text.is_space c.
Proof. TextFacts.by_character c. Qed.

Lemma lower_codes (s : string) :
  lower (codes s) = Some (codes (Text.lower s)).
Proof.
  induction s as [|c s IH]; simpl; [reflexivity |].
  by rewrite lower_cp_code, IH.
Qed.

Lemma sub_spaces_codes (in_run : bool) (s : string) :
  sub_spaces in_run (codes s) = codes (Text.sub_spaces in_run s).
Proof.
  revert in_run. induction s as [|c s IH]; intros in_run; simpl;
    [reflexivity |].
  rewrite is_space_code.
  destruct (Text.is_space c), in_run; simpl; by rewrite IH.
Qed.

(** On the strings of the first model, the two models agree. *)
Lemma normalized_codes (s : string) :
  normalized_search_term (codes s)
  = Some (codes (Text.normalized_search_term s)).
Proof.
  unfold normalized_search_term, Text.normalized_search_term,
    Text.collapse_whitespace.
  rewrite lower_codes. simpl. by rewrite sub_spaces_codes.
Qed.

(** A capital and its small letter of the first model are case variants
    of the second. *)
Lemma capital_is_case_variant (a b : ascii) :
  Text.capital_of a b → case_variant (N_of_ascii a) (N_of_ascii b).
Proof.
  intros Hab. destruct (TextFacts.lower_char_capital a b Hab) as [E _].
  right. right. right. left. by rewrite lower_cp_code, E.
Qed.

(** The capital S (U+0053) and the long s (U+017F), whose capital it is,
    differ in letter case only, and line 52 gives them the terms "s" and
    "ſ": two search strings that differ only in letter case and do not
    have the same SearchTerm. *)
Lemma long_s_has_its_own_term :
  differ_in_case_only [83%N] [383%N] ∧
  normalized_search_term [83%N] = Some [115%N] ∧
  normalized_search_term [383%N] = Some [383%N] ∧
  normalized_search_term [83%N] ≠ normalized_search_term [383%N].
Proof.
  split; [| by vm_compute].
  constructor; [| constructor]. right. right. left. reflexivity.
Qed.

End WideFacts.

(** ** The integration functions *)

Section Facts.

Context {Remote : Type}.
Context (omdb_get_by_imdb_id
           : Remote → string → @Reply Remote (option Details.t)).
Context (omdb_search
           : Remote → string → @Reply Remote (list OmdbMovie.t * bool)).
Context (movie_row_ok : Movie.t → bool).

Implicit Types (w : @World Remote) (omdb_movie : OmdbMovie.t)
  (results : list OmdbMovie.t) (movie : Movie.t) (search imdb_id : string).

Ltac run := unfold mbind, M_bind, mret, M_ret; simpl.

Ltac by_membership :=
  apply set_eq; intros ?;
  rewrite ?elem_of_union, ?elem_of_difference, ?elem_of_union,
    ?elem_of_singleton;
  intuition (subst; auto).

(** *** The loop over the search results *)

Lemma for_in_app {A} (g1 g2 : generator A) (body : A → M unit) w :
  for_in (g1 ++ g2) body w =
  match for_in g1 body w with
  | Ok _ w' => for_in g2 body w'
  | Raise e w' => Raise e w'
  end.
Proof.
  revert w. induction g1 as [|next g1 IH]; intros w; simpl; [reflexivity |].
  run. destruct (next w) as [x w1 | e w1]; [| reflexivity].
  destruct (body x w1) as [[] w2 | e w2]; [apply IH | reflexivity].
Qed.

Lemma for_in_yield {A} (x : A) (gen : generator A) (body : A → M unit) w :
  for_in (mret x :: gen) body w =
  match body x w with
  | Ok _ w' => for_in gen body w'
  | Raise e w' => Raise e w'
  end.
Proof. reflexivity. Qed.

Lemma save_result_eq omdb_movie w :
  save_result movie_row_ok omdb_movie w =
  let w1 := append_log (saving_entry omdb_movie) w in
  match movie_table (db w) !! OmdbMovie.imdb_id omdb_movie with
  | Some _ => Ok tt w1
  | None =>
      if movie_row_ok (partial_of omdb_movie)
      then Ok tt (append_log (created_entry (partial_of omdb_movie))
                    (with_db (put_movie (partial_of omdb_movie)) w1))
      else Raise DatabaseError w1
  end.
Proof.
  unfold save_result, Movie_get_or_create, logger_info, emit. run.
  fold (partial_of omdb_movie).
  destruct (movie_table (db w) !! OmdbMovie.imdb_id omdb_movie); [reflexivity |].
  destruct (movie_row_ok (partial_of omdb_movie)); reflexivity.
Qed.

Lemma save_result_ok omdb_movie w :
  is_Some (movie_table (db w) !! OmdbMovie.imdb_id omdb_movie) ∨
  movie_row_ok (partial_of omdb_movie) = true →
  ∃ w', save_result movie_row_ok omdb_movie w = Ok tt w' ∧
        movie_table (db w') = add_row (movie_table (db w)) omdb_movie ∧
        rest_of w' = rest_of w.
Proof.
  intros H. rewrite save_result_eq. unfold add_row. simpl.
  destruct (movie_table (db w) !! OmdbMovie.imdb_id omdb_movie) as [m|] eqn:E.
  - eexists; split; [reflexivity | done].
  - destruct H as [[? ?] | ->]; [discriminate |].
    eexists; split; [reflexivity | done].
Qed.

Lemma keeps_refl w : keeps w w.
Proof. by split. Qed.

Lemma keeps_trans w1 w2 w3 : keeps w1 w2 → keeps w2 w3 → keeps w1 w3.
Proof. intros [E1 K1] [E2 K2]. split; [congruence | auto]. Qed.

Lemma save_result_keeps omdb_movie w :
  keeps w (world_after (save_result movie_row_ok omdb_movie w)).
Proof.
  rewrite save_result_eq. simpl.
  destruct (movie_table (db w) !! OmdbMovie.imdb_id omdb_movie) as [m|] eqn:E;
    [by split |].
  destruct (movie_row_ok (partial_of omdb_movie)); [| by split].
  split; [reflexivity |]. simpl. intros id m Hm.
  rewrite lookup_insert_ne; [exact Hm | congruence].
Qed.

Lemma loop_keeps results fails w :
  keeps w (world_after (for_in (yields results fails)
                               (save_result movie_row_ok) w)).
Proof.
  unfold yields. revert w. induction results as [|r results IH]; intros w.
  - destruct fails; apply keeps_refl.
  - simpl map. simpl app. rewrite for_in_yield.
    pose proof (save_result_keeps r w) as K.
    destruct (save_result movie_row_ok r w) as [[] w1 | e w1]; simpl in K;
      [| exact K].
    eapply keeps_trans; [exact K | apply IH].
Qed.

Lemma loop_ok results w :
  Forall (λ r, movie_row_ok (partial_of r) = true) results →
  ∃ w', for_in (map mret results) (save_result movie_row_ok) w = Ok tt w' ∧
        movie_table (db w') = add_rows results (movie_table (db w)) ∧
        rest_of w' = rest_of w.
Proof.
  intros Hall. revert w. induction Hall as [|r results Hr _ IH]; intros w.
  - by exists w.
  - simpl map. rewrite for_in_yield.
    destruct (save_result_ok r w (or_intror Hr)) as (w1 & -> & T1 & R1).
    destruct (IH w1) as (w2 & E2 & T2 & R2).
    exists w2. split; [exact E2 |]. split; [| congruence].
    rewrite T2, T1. reflexivity.
Qed.

(** *** The movie table after a batch *)

Lemma first_with_cons imdb_id r results :
  first_with imdb_id (r :: results) =
  if bool_decide (OmdbMovie.imdb_id r = imdb_id) then Some r
  else first_with imdb_id results.
Proof. reflexivity. Qed.

Lemma add_rows_lookup results (tbl : gmap string Movie.t) imdb_id :
  add_rows results tbl !! imdb_id =
  match tbl !! imdb_id with
  | Some movie => Some movie
  | None => partial_of <$> first_with imdb_id results
  end.
Proof.
  unfold add_rows. revert tbl.
  induction results as [|r results IH]; intros tbl.
  - simpl. by destruct (tbl !! imdb_id).
  - rewrite first_with_cons. simpl foldl. rewrite IH. unfold add_row.
    destruct (tbl !! OmdbMovie.imdb_id r) as [m|] eqn:Er.
    + case_bool_decide as Hid; [| reflexivity].
      subst imdb_id. by rewrite Er.
    + case_bool_decide as Hid.
      * subst imdb_id. by rewrite lookup_insert_eq, Er.
      * by rewrite lookup_insert_ne.
Qed.

Lemma add_rows_size results (tbl : gmap string Movie.t) :
  NoDup (map OmdbMovie.imdb_id results) →
  Forall (λ r, tbl !! OmdbMovie.imdb_id r = None) results →
  size (add_rows results tbl) = (size tbl + length results)%nat.
Proof.
  unfold add_rows. revert tbl.
  induction results as [|r results IH]; intros tbl Hnd Hnew; simpl; [lia |].
  apply NoDup_cons in Hnd as [Hr Hnd]. apply Forall_cons in Hnew as [Er Hnew].
  unfold add_row at 2. rewrite Er.
  rewrite IH; [rewrite map_size_insert_None by exact Er; lia | exact Hnd |].
  apply Forall_forall. intros x Hx.
  rewrite lookup_insert_ne; [by eapply Forall_forall in Hnew |].
  intros E. apply Hr. rewrite E. apply list_elem_of_fmap. by exists x.
Qed.

Lemma first_with_first results (i : nat) r :
  results !! i = Some r →
  (∀ (j : nat) r', (j < i)%nat → results !! j = Some r' →
                   OmdbMovie.imdb_id r' ≠ OmdbMovie.imdb_id r) →
  first_with (OmdbMovie.imdb_id r) (take (S i) results) = Some r.
Proof.
  revert i. induction results as [|x results IH]; intros i Hi Hfirst;
    [discriminate |].
  rewrite firstn_cons, first_with_cons. destruct i as [|i]; simpl in Hi.
  - injection Hi as ->. by rewrite bool_decide_eq_true_2.
  - rewrite bool_decide_eq_false_2; [| apply (Hfirst 0%nat); [lia | done]].
    apply IH; [exact Hi |]. intros j r' Hj Hr'.
    apply (Hfirst (S j)); [lia | exact Hr'].
Qed.

(** *** Unfolding [search_and_save] *)

Lemma search_and_save_eq search w :
  search_and_save omdb_search movie_row_ok search w =
  let term := Text.normalized_search_term search in
  match search_term_table (db w) !! term with
  | Some last_search =>
      if bool_decide (last_search > clock w - timedelta_days 1)
      then Ok tt (append_log (searched_recently_entry term) w)
      else run_search omdb_search movie_row_ok search
             (SearchTerm.make term last_search) w
  | None =>
      run_search omdb_search movie_row_ok search
        (SearchTerm.make term (clock w))
        (with_db (put_search_term term (clock w)) w)
  end.
Proof.
  unfold search_and_save, SearchTerm_get_or_create, now. run.
  destruct (search_term_table (db w) !! Text.normalized_search_term search);
    simpl; [| reflexivity].
  case_bool_decide; reflexivity.
Qed.

Lemma run_search_eq search (search_term : SearchTerm.t) w :
  run_search omdb_search movie_row_ok search search_term w =
  let r := omdb_search (remote w) search in
  match for_in (yields (answer r).1 (answer r).2) (save_result movie_row_ok)
               (called (SearchCall search) r w) with
  | Ok _ w' =>
      Ok tt (with_db (put_search_term (SearchTerm.term search_term) (clock w'))
                     w')
  | Raise e w' => Raise e w'
  end.
Proof. reflexivity. Qed.

Lemma run_search_world search (search_term : SearchTerm.t) w :
  let r := omdb_search (remote w) search in
  let w' := world_after (run_search omdb_search movie_row_ok search
                                    search_term w) in
  (∀ imdb_id movie, movie_table (db w) !! imdb_id = Some movie →
                    movie_table (db w') !! imdb_id = Some movie) ∧
  genre_table (db w') = genre_table (db w) ∧
  movie_genres (db w') = movie_genres (db w) ∧
  (∀ term, term ≠ SearchTerm.term search_term →
           search_term_table (db w') !! term = search_term_table (db w) !! term) ∧
  clock w' = clock w + Z.of_N (elapsed r) ∧
  api_calls w' = api_calls w ++ [SearchCall search].
Proof.
  intros r w'. subst w'. rewrite run_search_eq. fold r. cbv zeta.
  pose proof (loop_keeps (answer r).1 (answer r).2
                (called (SearchCall search) r w)) as [R K].
  destruct (for_in _ _ _) as [[] w2 | e w2]; simpl in *;
    unfold rest_of in R; simpl in R; injection R as Eg Em Es Ec _ Ea;
    rewrite ?Eg, ?Em, ?Es, ?Ec, ?Ea; repeat split; auto.
  intros term Hne. by rewrite lookup_insert_ne.
Qed.

(** The two ways through the recency check. *)
Lemma search_skipped search w :
  searched_recently search w = true →
  search_and_save omdb_search movie_row_ok search w =
  Ok tt (append_log
           (searched_recently_entry (Text.normalized_search_term search)) w).
Proof.
  unfold searched_recently. intros H. rewrite search_and_save_eq. cbv zeta.
  destruct (search_term_table (db w) !! _); [| discriminate]. by rewrite H.
Qed.

Lemma search_executed search w :
  searched_recently search w = false →
  ∃ (search_term : SearchTerm.t) w0,
    search_and_save omdb_search movie_row_ok search w =
    run_search omdb_search movie_row_ok search search_term w0 ∧
    SearchTerm.term search_term = Text.normalized_search_term search ∧
    movie_table (db w0) = movie_table (db w) ∧
    genre_table (db w0) = genre_table (db w) ∧
    movie_genres (db w0) = movie_genres (db w) ∧
    (∀ term, term ≠ Text.normalized_search_term search →
             search_term_table (db w0) !! term = search_term_table (db w) !! term) ∧
    clock w0 = clock w ∧ remote w0 = remote w ∧ api_calls w0 = api_calls w.
Proof.
  unfold searched_recently. intros H. rewrite search_and_save_eq. cbv zeta.
  destruct (search_term_table (db w) !! _) as [ts|].
  - rewrite H. by eexists _, w.
  - eexists _, _. split; [reflexivity |]. simpl. repeat split; auto.
    intros term Hne. by rewrite lookup_insert_ne.
Qed.

Lemma search_and_save_frame search w :
  let w' := world_after (search_and_save omdb_search movie_row_ok search w) in
  (∀ imdb_id movie, movie_table (db w) !! imdb_id = Some movie →
                    movie_table (db w') !! imdb_id = Some movie) ∧
  genre_table (db w') = genre_table (db w) ∧
  movie_genres (db w') = movie_genres (db w) ∧
  (∀ term, term ≠ Text.normalized_search_term search →
           search_term_table (db w') !! term = search_term_table (db w) !! term).
Proof.
  cbv zeta. destruct (searched_recently search w) eqn:Hrec.
  - rewrite (search_skipped _ _ Hrec). simpl. by repeat split.
  - destruct (search_executed _ _ Hrec)
      as (st & w0 & -> & Et & Em & Eg & Emg & Es & _).
    destruct (run_search_world search st w0) as (K & Eg' & Emg' & Es' & _).
    rewrite <- Em, <- Eg, <- Emg. repeat split; auto.
    intros term Hne. rewrite Es' by congruence. by apply Es.
Qed.

Lemma yields_app pre post (fails : bool) :
  yields (Remote := Remote) (pre ++ post) fails
  = map mret pre ++ yields post fails.
Proof. unfold yields. by rewrite map_app, app_assoc. Qed.

(** An executed search whose first results [pre] the store accepts: the
    loop reaches the remaining results with the rows of [pre] added. *)
Lemma run_search_split search (search_term : SearchTerm.t) w pre post :
  let r := omdb_search (remote w) search in
  (answer r).1 = pre ++ post →
  Forall (λ x, movie_row_ok (partial_of x) = true) pre →
  ∃ w2, movie_table (db w2) = add_rows pre (movie_table (db w)) ∧
        run_search omdb_search movie_row_ok search search_term w =
        match for_in (yields post (answer r).2) (save_result movie_row_ok) w2
        with
        | Ok _ w3 =>
            Ok tt (with_db (put_search_term (SearchTerm.term search_term)
                                            (clock w3)) w3)
        | Raise e w3 => Raise e w3
        end.
Proof.
  intros r Hsplit Hall. rewrite run_search_eq. fold r. cbv zeta.
  rewrite Hsplit, yields_app, for_in_app.
  destruct (loop_ok pre (called (SearchCall search) r w) Hall)
    as (w2 & -> & T2 & _).
  exists w2. split; [exact T2 | reflexivity].
Qed.

Lemma first_with_elem results omdb_movie :
  omdb_movie ∈ results →
  is_Some (first_with (OmdbMovie.imdb_id omdb_movie) results).
Proof.
  induction 1 as [x l | x y l _ IH]; rewrite first_with_cons.
  - by rewrite bool_decide_eq_true_2.
  - by case_bool_decide.
Qed.

(** *** Claims about [search_and_save] *)

(** C1 (amended): when the SearchTerm of the normalized search string
    already existed and its last-search timestamp is strictly later than
    now - 24h, [search_and_save] logs one warning and returns: the client
    is not called and the store, the timestamp included, is as before.
    A timestamp of now - 24h or older lets the search proceed, so the
    client is called.  A term searched 23 hours ago is skipped, one
    searched 25 hours ago is searched again. *)
Theorem recent_search_is_skipped search w (last_search : Z) :
  search_term_table (db w) !! Text.normalized_search_term search
    = Some last_search →
  let skipped :=
    search_and_save omdb_search movie_row_ok search w =
    Ok tt (append_log
             (searched_recently_entry (Text.normalized_search_term search)) w) in
  let executed :=
    api_calls (world_after (search_and_save omdb_search movie_row_ok search w))
    = api_calls w ++ [SearchCall search] in
  (last_search > clock w - timedelta_days 1 → skipped) ∧
  (last_search ≤ clock w - timedelta_days 1 → executed) ∧
  (last_search = clock w - hours 23 → skipped) ∧
  (last_search = clock w - hours 25 → executed).
Proof.
  intros Hts skipped executed.
  assert (Hskip : last_search > clock w - timedelta_days 1 → skipped).
  { intros H. apply search_skipped. unfold searched_recently. rewrite Hts.
    by apply bool_decide_eq_true_2. }
  assert (Hexec : last_search ≤ clock w - timedelta_days 1 → executed).
  { intros H. unfold executed.
    destruct (search_executed search w)
      as (st & w0 & -> & _ & _ & _ & _ & _ & _ & _ & Ea).
    - unfold searched_recently. rewrite Hts. apply bool_decide_eq_false_2. lia.
    - destruct (run_search_world search st w0) as (_ & _ & _ & _ & _ & ->).
      by rewrite Ea. }
  repeat split; [exact Hskip | exact Hexec | |].
  - intros ->. apply Hskip. unfold hours, timedelta_days. lia.
  - intros ->. apply Hexec. unfold hours, timedelta_days. lia.
Qed.

(** C3: a call of [search_and_save] that passes the recency check and
    comes to its end has stamped the SearchTerm of the normalized search
    string with the time at which it was saved, the current time, so that
    the same search, asked again at once, is skipped.  The call comes to
    its end whenever the client does not raise and the store accepts the
    rows of the results; with zero results it always does. *)
Theorem executed_search_stamps_the_term search w :
  searched_recently search w = false →
  let r := omdb_search (remote w) search in
  let term := Text.normalized_search_term search in
  let stamped w' :=
    search_and_save omdb_search movie_row_ok search w = Ok tt w' ∧
    search_term_table (db w') !! term = Some (clock w') ∧
    clock w' = clock w + Z.of_N (elapsed r) ∧
    searched_recently search w' = true in
  (∀ w', search_and_save omdb_search movie_row_ok search w = Ok tt w' →
         stamped w') ∧
  ((answer r).2 = false →
   Forall (λ x, movie_row_ok (partial_of x) = true) (answer r).1 →
   ∃ w', stamped w') ∧
  ((answer r).1 = [] → (answer r).2 = false → ∃ w', stamped w').
Proof.
  intros Hrec r term stamped.
  destruct (search_executed _ _ Hrec)
    as (st & w0 & E & Et & _ & _ & _ & _ & Ec & Er & _).
  assert (Hend : ∀ w', search_and_save omdb_search movie_row_ok search w
                       = Ok tt w' → stamped w').
  { intros w' Hok. split; [exact Hok |].
    pose proof (run_search_world search st w0) as (_ & _ & _ & _ & Hc & _).
    rewrite <- E, Hok, Er, Ec in Hc. simpl in Hc. fold r in Hc.
    assert (Hrow : search_term_table (db w') !! term = Some (clock w')).
    { rewrite E, run_search_eq in Hok. cbv zeta in Hok.
      destruct (for_in _ _ _) as [[] w2 | e w2]; [| discriminate].
      injection Hok as <-. simpl. rewrite Et. apply lookup_insert_eq. }
    split; [exact Hrow |]. split; [exact Hc |].
    unfold searched_recently. fold term. rewrite Hrow.
    apply bool_decide_eq_true_2. unfold timedelta_days. lia. }
  assert (Hruns : (answer r).2 = false →
                  Forall (λ x, movie_row_ok (partial_of x) = true) (answer r).1 →
                  ∃ w', stamped w').
  { intros Hf Hall.
    assert (∃ w', search_and_save omdb_search movie_row_ok search w = Ok tt w')
      as [w' Hok]; [| exists w'; by apply Hend].
    rewrite E, run_search_eq. cbv zeta. rewrite Er. fold r. rewrite Hf.
    unfold yields. rewrite app_nil_r.
    destruct (loop_ok _ (called (SearchCall search) r w0) Hall)
      as (w2 & -> & _). by eexists. }
  split; [exact Hend |]. split; [exact Hruns |].
  intros Hnil Hf. apply Hruns; [exact Hf |]. rewrite Hnil. constructor.
Qed.

(** C5: a movie that is stored when [search_and_save] is called is stored
    unchanged afterwards, whatever the client returns and however the call
    ends: its title, year, plot, runtime and full-record flag are the same,
    and so are its genres.  In particular a result that carries the ID of
    a stored movie does not overwrite it. *)
Theorem search_leaves_stored_movies search w imdb_id movie :
  movie_table (db w) !! imdb_id = Some movie →
  let w' := world_after (search_and_save omdb_search movie_row_ok search w) in
  movie_table (db w') !! imdb_id = Some movie ∧
  genres_of (db w') imdb_id = genres_of (db w) imdb_id.
Proof.
  intros Hm w'. destruct (search_and_save_frame search w) as (K & _ & Eg & _).
  split; [by apply K |]. unfold genres_of. fold w' in Eg. by rewrite Eg.
Qed.

(** C6: a search result whose ID identifies no stored movie when the loop
    reaches it -- the ID is unknown to the store and no earlier result of
    the batch carries it -- leaves a new row with the result's title and
    year, no plot, no runtime and a false full-record flag.  This holds for
    the single step and for the whole call, provided the store accepts the
    rows up to that result.  A batch of pairwise different unknown IDs adds
    as many rows as it has results. *)
Theorem unknown_result_becomes_partial_record search w :
  (∀ omdb_movie w1,
     movie_table (db w1) !! OmdbMovie.imdb_id omdb_movie = None →
     movie_row_ok (partial_of omdb_movie) = true →
     ∃ w2, save_result movie_row_ok omdb_movie w1 = Ok tt w2 ∧
           movie_table (db w2) =
           <[OmdbMovie.imdb_id omdb_movie :=
               Movie.make (OmdbMovie.imdb_id omdb_movie)
                          (OmdbMovie.title omdb_movie)
                          (OmdbMovie.year omdb_movie) None None false]>
             (movie_table (db w1))) ∧
  (searched_recently search w = false →
   let results := (answer (omdb_search (remote w) search)).1 in
   let w' := world_after (search_and_save omdb_search movie_row_ok search w) in
   (∀ (i : nat) omdb_movie,
      results !! i = Some omdb_movie →
      movie_table (db w) !! OmdbMovie.imdb_id omdb_movie = None →
      (∀ (j : nat) earlier, (j < i)%nat → results !! j = Some earlier →
         OmdbMovie.imdb_id earlier ≠ OmdbMovie.imdb_id omdb_movie) →
      Forall (λ x, movie_row_ok (partial_of x) = true) (take (S i) results) →
      movie_table (db w') !! OmdbMovie.imdb_id omdb_movie =
      Some (Movie.make (OmdbMovie.imdb_id omdb_movie)
                       (OmdbMovie.title omdb_movie)
                       (OmdbMovie.year omdb_movie) None None false)) ∧
   (NoDup (map OmdbMovie.imdb_id results) →
    Forall (λ x, movie_table (db w) !! OmdbMovie.imdb_id x = None) results →
    Forall (λ x, movie_row_ok (partial_of x) = true) results →
    size (movie_table (db w')) =
    (size (movie_table (db w)) + length results)%nat)).
Proof.
  split.
  { intros r w1 Hnew Hok.
    destruct (save_result_ok r w1 (or_intror Hok)) as (w2 & E & T & _).
    exists w2. split; [exact E |]. rewrite T. unfold add_row. by rewrite Hnew. }
  intros Hrec results w'.
  destruct (search_executed _ _ Hrec)
    as (st & w0 & E & _ & Em & _ & _ & _ & _ & Er & _).
  subst w'. rewrite E. subst results. rewrite <- Er. split.
  - intros i r Hi Hnew Hfirst Hok.
    destruct (run_search_split search st w0 _ _
                (eq_sym (take_drop (S i) _)) Hok) as (w2 & T2 & ->).
    assert (H2 : movie_table (db w2) !! OmdbMovie.imdb_id r
                 = Some (partial_of r)).
    { rewrite T2, add_rows_lookup, Em, Hnew.
      by rewrite (first_with_first _ i r Hi Hfirst). }
    pose proof (loop_keeps (drop (S i) (answer (omdb_search (remote w0) search)).1)
                  (answer (omdb_search (remote w0) search)).2 w2) as [_ K].
    apply K in H2.
    destruct (for_in _ _ _) as [[] w3 | e w3]; exact H2.
  - intros Hnd Hnew Hok.
    destruct (run_search_split search st w0 _ []
                (eq_sym (app_nil_r _)) Hok) as (w2 & T2 & ->).
    assert (H2 : size (movie_table (db w2)) =
                 (size (movie_table (db w))
                  + length (answer (omdb_search (remote w0) search)).1)%nat).
    { rewrite T2, Em. by apply add_rows_size. }
    unfold yields. simpl.
    destruct ((answer (omdb_search (remote w0) search)).2); exact H2.
Qed.

(** C9: when the store refuses the row of one result -- a result whose ID
    is neither stored nor carried by an earlier result of the batch -- the
    call ends with the store's error.  The movie table then holds the rows
    it had and the rows created for the results before the failing one,
    and nothing else: those rows stay, and neither the failing result nor
    any later one has left a row.  The last line logged is the one that
    announces the failing result. *)
Theorem failed_save_aborts_the_batch search w pre omdb_movie post :
  searched_recently search w = false →
  (answer (omdb_search (remote w) search)).1 = pre ++ omdb_movie :: post →
  Forall (λ x, movie_row_ok (partial_of x) = true) pre →
  movie_table (db w) !! OmdbMovie.imdb_id omdb_movie = None →
  first_with (OmdbMovie.imdb_id omdb_movie) pre = None →
  movie_row_ok (partial_of omdb_movie) = false →
  ∃ w', search_and_save omdb_search movie_row_ok search w
        = Raise DatabaseError w' ∧
        (∀ imdb_id,
           movie_table (db w') !! imdb_id =
           match movie_table (db w) !! imdb_id with
           | Some movie => Some movie
           | None => partial_of <$> first_with imdb_id pre
           end) ∧
        (∀ x, x ∈ pre →
              is_Some (movie_table (db w') !! OmdbMovie.imdb_id x)) ∧
        movie_table (db w') !! OmdbMovie.imdb_id omdb_movie = None ∧
        last (log w') = Some (saving_entry omdb_movie).
Proof.
  intros Hrec Hsplit Hpre Hnew Hfirst Hbad.
  destruct (search_executed _ _ Hrec)
    as (st & w0 & E & _ & Em & _ & _ & _ & _ & Er & _).
  rewrite <- Er in Hsplit.
  destruct (run_search_split search st w0 _ _ Hsplit Hpre) as (w2 & T2 & E2).
  assert (Htbl : ∀ imdb_id,
             movie_table (db w2) !! imdb_id =
             match movie_table (db w) !! imdb_id with
             | Some movie => Some movie
             | None => partial_of <$> first_with imdb_id pre
             end).
  { intros id. by rewrite T2, add_rows_lookup, Em. }
  assert (Hr : movie_table (db w2) !! OmdbMovie.imdb_id omdb_movie = None).
  { by rewrite Htbl, Hnew, Hfirst. }
  exists (append_log (saving_entry omdb_movie) w2).
  split; [| split; [exact Htbl | split; [| split; [exact Hr |]]]].
  - rewrite E, E2. unfold yields. simpl app. rewrite for_in_yield.
    rewrite save_result_eq. cbv zeta. by rewrite Hr, Hbad.
  - intros x Hx. simpl. rewrite Htbl.
    destruct (movie_table (db w) !! OmdbMovie.imdb_id x); [done |].
    destruct (first_with_elem pre x Hx) as [y ->]. done.
  - simpl. apply last_snoc.
Qed.

(** *** [fill_movie_details] *)

Lemma for_in_cons {A} (next : M A) (gen : generator A) (body : A → M unit) w :
  for_in (next :: gen) body w =
  match next w with
  | Ok x w1 => match body x w1 with
               | Ok _ w2 => for_in gen body w2
               | Raise e w2 => Raise e w2
               end
  | Raise e w1 => Raise e w1
  end.
Proof. reflexivity. Qed.

Lemma genres_add_eq movie (genre : Genre) w :
  is_Some (movie_table (db w) !! Movie.imdb_id movie) →
  genres_add movie genre w =
  Ok tt (with_db (λ d, put_movie_genres
                         ({[ (Movie.imdb_id movie, genre) ]} ∪ movie_genres d)
                         d) w).
Proof.
  intros [m Hm]. unfold genres_add, movie_genres_manager, write_db. run.
  by rewrite Hm.
Qed.

Lemma genres_loop (genre_names : list string) movie w :
  is_Some (movie_table (db w) !! Movie.imdb_id movie) →
  ∃ w', for_in (get_or_create_genres genre_names) (genres_add movie) w
        = Ok tt w' ∧
        movie_table (db w') = movie_table (db w) ∧
        genre_table (db w') = genre_table (db w) ∪ list_to_set genre_names ∧
        movie_genres (db w') =
        movie_genres (db w)
        ∪ list_to_set (pair (Movie.imdb_id movie) <$> genre_names) ∧
        search_term_table (db w') = search_term_table (db w) ∧
        clock w' = clock w ∧ remote w' = remote w ∧ log w' = log w ∧
        api_calls w' = api_calls w.
Proof.
  revert w. induction genre_names as [|n names IH]; intros w Hrow.
  - exists w. simpl. rewrite !(right_id_L ∅ (∪)). by repeat split.
  - unfold get_or_create_genres. simpl map.
    fold (get_or_create_genres (Remote := Remote) names).
    rewrite for_in_cons.
    unfold mbind, M_bind, mret, M_ret, Genre_get_or_create.
    destruct (decide (n ∈ genre_table (db w))) as [Hin | Hout];
      rewrite genres_add_eq by exact Hrow;
      match goal with |- context [for_in _ _ ?w1] =>
        destruct (IH w1 Hrow)
          as (w' & -> & Em & Eg & Emg & Es & Ec & Er & El & Ea)
      end;
      exists w'; simpl in *;
      rewrite Em, Eg, Emg, Es, Ec, Er, El, Ea;
      (split; [reflexivity |]);
      repeat (split; [first [reflexivity | by_membership] |]); reflexivity.
Qed.

Lemma fill_full movie w :
  Movie.is_full_record movie = true →
  fill_movie_details omdb_get_by_imdb_id movie_row_ok movie w =
  Ok movie (append_log (already_full_entry movie) w).
Proof. unfold fill_movie_details. by intros ->. Qed.

Lemma fill_partial movie w :
  Movie.is_full_record movie = false →
  let r := omdb_get_by_imdb_id (remote w) (Movie.imdb_id movie) in
  let w1 := called (GetByImdbId (Movie.imdb_id movie)) r w in
  match answer r with
  | None =>
      fill_movie_details omdb_get_by_imdb_id movie_row_ok movie w
      = Raise ClientError w1
  | Some movie_details =>
      match movie_table (db w) !! Movie.imdb_id movie with
      | None =>
          fill_movie_details omdb_get_by_imdb_id movie_row_ok movie w
          = Raise ValueError w1
      | Some _ =>
      ∃ w2,
        movie_table (db w2) = movie_table (db w) ∧
        genre_table (db w2) =
        genre_table (db w) ∪ list_to_set (Details.genres movie_details) ∧
        movie_genres (db w2) =
        filter (λ p, p.1 ≠ Movie.imdb_id movie) (movie_genres (db w))
        ∪ list_to_set (pair (Movie.imdb_id movie)
                         <$> Details.genres movie_details) ∧
        search_term_table (db w2) = search_term_table (db w) ∧
        clock w2 = clock w1 ∧ remote w2 = remote w1 ∧ log w2 = log w ∧
        api_calls w2 = api_calls w1 ∧
        fill_movie_details omdb_get_by_imdb_id movie_row_ok movie w =
        if movie_row_ok (filled movie movie_details)
        then Ok (filled movie movie_details)
                (with_db (put_movie (filled movie movie_details)) w2)
        else Raise DatabaseError w2
      end
  end.
Proof.
  intros Hflag r w1. unfold fill_movie_details. rewrite Hflag.
  unfold mbind, M_bind, mret, M_ret, client_get_by_imdb_id. cbv zeta.
  fold r. fold w1.
  destruct (answer r) as [d|]; [| reflexivity].
  unfold genres_clear, movie_genres_manager, write_db, mbind, M_bind.
  cbv beta iota.
  change (db w1) with (db w). simpl Movie.imdb_id.
  destruct (movie_table (db w) !! Movie.imdb_id movie) as [stored|] eqn:Hrow;
    [| reflexivity].
  set (movie0 := Movie.make (Movie.imdb_id movie) (Details.title d)
                   (Details.year d) (Some (Details.plot d))
                   (Some (Details.runtime_minutes d)) false).
  match goal with |- context [for_in ?g ?b ?w0] =>
    destruct (genres_loop (Details.genres d) movie0 w0)
      as (w2 & E & Em & Eg & Emg & Es & Ec & Er & El & Ea);
    [simpl; rewrite Hrow; by eexists |];
    change (for_in g b w0) with (for_in g (genres_add movie0) w0)
  end.
  rewrite E. exists w2. simpl in Em, Eg, Emg, Es, Ec, Er, El, Ea.
  repeat (split; [assumption |]).
  unfold Movie_save, filled. simpl.
  by destruct (movie_row_ok _).
Qed.

Lemma genres_of_eq (d : Store) imdb_id (g : Genre) :
  g ∈ genres_of d imdb_id ↔ (imdb_id, g) ∈ movie_genres d.
Proof.
  unfold genres_of. rewrite elem_of_map. split.
  - intros ([i g'] & -> & H). apply elem_of_filter in H as [Hi H].
    simpl in Hi. by subst i.
  - intros H. exists (imdb_id, g). split; [reflexivity |].
    by apply elem_of_filter.
Qed.

(** C2: on a movie whose full-record flag is true, [fill_movie_details]
    logs one warning and returns.  The movie object is as it was, the
    client has not been called, and the store is the same: the movie's row
    and genres, the genres and the search terms. *)
Theorem full_record_is_left_alone movie w :
  Movie.is_full_record movie = true →
  ∃ w', fill_movie_details omdb_get_by_imdb_id movie_row_ok movie w
        = Ok movie w' ∧
        db w' = db w ∧
        genres_of (db w') (Movie.imdb_id movie)
        = genres_of (db w) (Movie.imdb_id movie) ∧
        api_calls w' = api_calls w ∧
        remote w' = remote w ∧ clock w' = clock w ∧
        log w' = log w ++ [already_full_entry movie].
Proof.
  intros Hfull. rewrite (fill_full _ _ Hfull). by eexists.
Qed.


(** *** The full-record flag along a run *)

Lemma fill_flag movie w imdb_id :
  let w' := world_after
              (fill_movie_details omdb_get_by_imdb_id movie_row_ok movie w) in
  stored_flag imdb_id w' = stored_flag imdb_id w ∨
  (Movie.is_full_record movie = false ∧ imdb_id = Movie.imdb_id movie ∧
   stored_flag imdb_id w' = Some true).
Proof.
  cbv zeta. destruct (Movie.is_full_record movie) eqn:Hflag.
  - rewrite (fill_full _ _ Hflag). by left.
  - pose proof (fill_partial movie w Hflag) as H. cbv zeta in H.
    destruct (answer _) as [d|]; [| rewrite H; by left].
    destruct (movie_table (db w) !! Movie.imdb_id movie) as [stored|];
      [| rewrite H; by left].
    destruct H as (w2 & Em & _ & _ & _ & _ & _ & _ & _ & ->).
    unfold stored_flag.
    destruct (movie_row_ok (filled movie d)); simpl; [| left; by rewrite Em].
    destruct (decide (imdb_id = Movie.imdb_id movie)) as [-> | Hne].
    + right. by rewrite lookup_insert_eq.
    + left. rewrite lookup_insert_ne by done. by rewrite Em.
Qed.

Lemma search_flag search w imdb_id :
  is_Some (stored_flag imdb_id w) →
  stored_flag imdb_id
    (world_after (search_and_save omdb_search movie_row_ok search w))
  = stored_flag imdb_id w.
Proof.
  unfold stored_flag. intros [b Hb].
  destruct (movie_table (db w) !! imdb_id) as [m|] eqn:Hm; [| discriminate].
  destruct (search_and_save_frame search w) as (K & _).
  by rewrite (K _ _ Hm).
Qed.

Lemma run_op_sticky (op : Op) w imdb_id :
  stored_flag imdb_id w = Some true →
  stored_flag imdb_id
    (run_op omdb_get_by_imdb_id omdb_search movie_row_ok op w) = Some true.
Proof.
  intros Htrue. destruct op as [movie | search | d]; simpl.
  - destruct (fill_flag movie w imdb_id) as [-> | (_ & _ & ->)]; done.
  - rewrite search_flag; [done | by rewrite Htrue].
  - exact Htrue.
Qed.

Lemma history_head (ops : list Op) w :
  ∃ later, history omdb_get_by_imdb_id omdb_search movie_row_ok ops w
           = w :: later.
Proof. destruct ops; by eexists. Qed.

Lemma flag_trace (ops : list Op) w imdb_id :
  let tr := map (stored_flag imdb_id)
                (history omdb_get_by_imdb_id omdb_search movie_row_ok ops w) in
  falls tr = 0%nat ∧ (rises tr ≤ 1)%nat ∧
  (stored_flag imdb_id w = Some true → rises tr = 0%nat).
Proof.
  cbv zeta. revert w. induction ops as [|op ops IH]; intros w.
  - simpl. destruct (stored_flag imdb_id w) as [[]|]; auto.
  - pose proof (run_op_sticky op w imdb_id) as Hsticky.
    change (history omdb_get_by_imdb_id omdb_search movie_row_ok (op :: ops) w)
      with (w :: history omdb_get_by_imdb_id omdb_search movie_row_ok ops
                   (run_op omdb_get_by_imdb_id omdb_search movie_row_ok op w)).
    specialize (IH (run_op omdb_get_by_imdb_id omdb_search movie_row_ok op w)).
    destruct (history_head ops
                (run_op omdb_get_by_imdb_id omdb_search movie_row_ok op w))
      as [later E].
    rewrite E in *. simpl map in *.
    destruct IH as (Hf & Hr & Hr0).
    destruct (stored_flag imdb_id w) as [[]|].
    + rewrite (Hsticky eq_refl) in *. simpl.
      split; [exact Hf |]. specialize (Hr0 eq_refl). simpl in Hr0.
      split; [lia | done].
    + destruct (stored_flag imdb_id (run_op _ _ _ op w)) as [[]|]; simpl;
        simpl in Hf, Hr, Hr0; (split; [exact Hf |]); (split; [| done]);
        try (rewrite (Hr0 eq_refl)); lia.
    + destruct (stored_flag imdb_id (run_op _ _ _ op w)) as [[]|]; simpl;
        simpl in Hf, Hr, Hr0; (split; [exact Hf |]); (split; [| done]); lia.
Qed.

(** C8: along every run of fills, searches and pauses, from every world
    and for every movie ID, the stored full-record flag never leaves true
    and goes from false to true at most once.  [search_and_save] leaves
    the flag of every stored movie as it is.  [fill_movie_details] changes
    the stored flag of no movie but its own, changes that one only when
    called on a movie object whose flag is false, and only to true. *)
Theorem full_record_flag_never_reverts :
  (∀ (ops : list Op) w imdb_id,
     let tr := map (stored_flag imdb_id)
                   (history omdb_get_by_imdb_id omdb_search movie_row_ok
                            ops w) in
     falls tr = 0%nat ∧ (rises tr ≤ 1)%nat) ∧
  (∀ search w imdb_id,
     is_Some (stored_flag imdb_id w) →
     stored_flag imdb_id
       (world_after (search_and_save omdb_search movie_row_ok search w))
     = stored_flag imdb_id w) ∧
  (∀ movie w imdb_id,
     let w' := world_after
                 (fill_movie_details omdb_get_by_imdb_id movie_row_ok
                                     movie w) in
     stored_flag imdb_id w' = stored_flag imdb_id w ∨
     (Movie.is_full_record movie = false ∧ imdb_id = Movie.imdb_id movie ∧
      stored_flag imdb_id w' = Some true)).
Proof.
  split; [| split].
  - intros ops w id tr. destruct (flag_trace ops w id) as (Hf & Hr & _).
    by split.
  - apply search_flag.
  - apply fill_flag.
Qed.

(** *** The search term *)

Lemma search_files_the_term search w :
  is_Some (search_term_table
             (db (world_after
                    (search_and_save omdb_search movie_row_ok search w)))
           !! Text.normalized_search_term search).
Proof.
  rewrite search_and_save_eq. cbv zeta.
  destruct (search_term_table (db w) !! _) as [ts|] eqn:Hts.
  - case_bool_decide; [simpl; by rewrite Hts |].
    rewrite run_search_eq. cbv zeta.
    match goal with |- context [for_in (yields ?rs ?f) _ ?w1] =>
      pose proof (loop_keeps rs f w1) as [R _] end.
    destruct (for_in _ _ _) as [[] w2 | e w2]; simpl in *.
    + by rewrite lookup_insert_eq.
    + unfold rest_of in R. simpl in R. injection R as _ _ Es _ _ _.
      by rewrite Es, Hts.
  - rewrite run_search_eq. cbv zeta.
    match goal with |- context [for_in (yields ?rs ?f) _ ?w1] =>
      pose proof (loop_keeps rs f w1) as [R _] end.
    destruct (for_in _ _ _) as [[] w2 | e w2]; simpl in *.
    + by rewrite lookup_insert_eq.
    + unfold rest_of in R. simpl in R. injection R as _ _ Es _ _ _.
      by rewrite Es, lookup_insert_eq.
Qed.

(** C7 (amended): search strings over the code points U+0000 to U+00FF
    that differ only in the lengths of their whitespace runs or in the
    case of their letters have the same normalized search term, so that a
    search for one of them files the SearchTerm under which the other is
    looked up, and both meet the same recency check.  "Star  Wars",
    "star wars" and "STAR WARS" all have the term "star wars".  The same
    holds of their code points in the model that reaches beyond
    U+00FF. *)
Theorem same_search_same_term :
  (∀ s s', Text.same_up_to_spacing_and_case s s' →
     Text.normalized_search_term s = Text.normalized_search_term s' ∧
     (∀ w, is_Some (search_term_table
                      (db (world_after
                             (search_and_save omdb_search movie_row_ok s w)))
                    !! Text.normalized_search_term s') ∧
           searched_recently s w = searched_recently s' w)) ∧
  Text.normalized_search_term "Star  Wars" = "star wars" ∧
  Text.normalized_search_term "star wars" = "star wars" ∧
  Text.normalized_search_term "STAR WARS" = "star wars" ∧
  (∀ s s', Text.same_up_to_spacing_and_case s s' →
     Wide.normalized_search_term (Wide.codes s)
     = Wide.normalized_search_term (Wide.codes s')).
Proof.
  split; [| split; [by vm_compute |]; split; [by vm_compute |];
            split; [by vm_compute |]].
  - intros s s' Hsame. pose proof (TextFacts.same_normalized s s' Hsame) as E.
    split; [exact E |]. intros w. split.
    + rewrite <- E. apply search_files_the_term.
    + unfold searched_recently. by rewrite E.
  - intros s s' Hsame. rewrite !WideFacts.normalized_codes.
    by rewrite (TextFacts.same_normalized s s' Hsame).
Qed.

(** C10: the normalization strips nothing.  A search string that starts
    with whitespace has a term that starts with exactly one space, and one
    that ends with whitespace has a term that ends with exactly one space.
    " star wars", "star wars " and "star wars" are their own terms, three
    different ones.  A search leaves the SearchTerm of every other term as
    it is, so searches whose terms differ are rate-limited apart. *)
Theorem outer_whitespace_stays_in_the_term :
  (∀ s, Text.starts_with_space s = true →
        ∃ rest, Text.normalized_search_term s = String " " rest ∧
                Text.starts_with_space rest = false) ∧
  (∀ s, Text.ends_with_space s = true →
        ∃ body, Text.normalized_search_term s = body +:+ " " ∧
                Text.ends_with_space body = false) ∧
  (Text.normalized_search_term " star wars" = " star wars" ∧
   Text.normalized_search_term "star wars " = "star wars " ∧
   Text.normalized_search_term "star wars" = "star wars") ∧
  (Text.normalized_search_term " star wars"
     ≠ Text.normalized_search_term "star wars" ∧
   Text.normalized_search_term "star wars "
     ≠ Text.normalized_search_term "star wars" ∧
   Text.normalized_search_term " star wars"
     ≠ Text.normalized_search_term "star wars ") ∧
  (∀ s s' w,
     Text.normalized_search_term s ≠ Text.normalized_search_term s' →
     let w' := world_after (search_and_save omdb_search movie_row_ok s w) in
     search_term_table (db w') !! Text.normalized_search_term s'
     = search_term_table (db w) !! Text.normalized_search_term s').
Proof.
  split; [exact TextFacts.leading_run_kept |].
  split; [exact TextFacts.trailing_run_kept |].
  split; [by vm_compute |].
  split; [by vm_compute |].
  intros s s' w Hne w'.
  destruct (search_and_save_frame s w) as (_ & _ & _ & Hs).
  apply Hs. congruence.
Qed.

End Facts.

(** ** Worked examples *)

Module Examples.
Import Sample.

Ltac closed := vm_compute; first [reflexivity | done].

(** The recency window at 23 and at 25 hours. *)
Lemma recent_search_is_skipped_example :
  let client := search_yields [star_wars] false in
  search_and_save client any_row "Star  Wars" (searched (hours 23))
  = Ok tt (append_log (searched_recently_entry "star wars")
                      (searched (hours 23))) ∧
  api_calls (world_after
               (search_and_save client any_row "Star  Wars"
                                (searched (hours 25))))
  = [SearchCall "Star  Wars"].
Proof.
  intros client. split.
  - apply (recent_search_is_skipped client any_row "Star  Wars"
             (searched (hours 23)) (noon - hours 23)); closed.
  - apply (recent_search_is_skipped client any_row "Star  Wars"
             (searched (hours 25)) (noon - hours 25)); closed.
Defined.

(** A term last searched exactly 24 hours ago is inside the window that
    includes its lower bound now - 24h, and yet the client is called and
    the timestamp is replaced. *)
Lemma exactly_one_day_old_is_searched_again :
  let w := searched (timedelta_days 1) in
  let w' := world_after
              (search_and_save (search_yields [star_wars] false) any_row
                               "Star Wars" w) in
  (∃ last_search,
     search_term_table (db w) !! Text.normalized_search_term "Star Wars"
     = Some last_search ∧
     clock w - timedelta_days 1 ≤ last_search ≤ clock w) ∧
  api_calls w' ≠ api_calls w ∧
  search_term_table (db w') !! Text.normalized_search_term "Star Wars"
  ≠ search_term_table (db w) !! Text.normalized_search_term "Star Wars".
Proof.
  intros w w'. split; [| split].
  - exists (noon - timedelta_days 1). split; [closed |]. split; closed.
  - closed.
  - closed.
Qed.

Lemma full_record_is_left_alone_example :
  ∃ w', fill_movie_details (details_are (Some star_wars_details)) any_row
          star_wars_full with_full = Ok star_wars_full w' ∧
        db w' = db with_full ∧ api_calls w' = [].
Proof.
  destruct (full_record_is_left_alone (details_are (Some star_wars_details))
              any_row star_wars_full with_full eq_refl)
    as (w' & E & Edb & _ & Ea & _).
  exists w'. split; [exact E |]. split; [exact Edb | exact Ea].
Defined.

(** No results: the term is stamped all the same, two seconds after
    noon, when the client has answered. *)
Lemma executed_search_stamps_the_term_example :
  ∃ w', search_and_save (search_yields [] false) any_row "Star Wars"
          (searched (hours 25)) = Ok tt w' ∧
        search_term_table (db w') !! "star wars" = Some (clock w') ∧
        clock w' = noon + 2000000 ∧
        searched_recently "Star Wars" w' = true.
Proof.
  destruct (executed_search_stamps_the_term (search_yields [] false) any_row
              "Star Wars" (searched (hours 25)) eq_refl)
    as (_ & _ & H).
  destruct (H eq_refl eq_refl) as (w' & E & Hs & Hc & Hagain).
  exists w'. split; [exact E |]. split; [exact Hs |].
  split; [exact Hc | exact Hagain].
Defined.


(** A result that carries the ID of a full record, under another title. *)
Lemma search_leaves_stored_movies_example :
  let retitled := OmdbMovie.make "tt0076759" "La guerre des etoiles" 1978 in
  let w' := world_after
              (search_and_save (search_yields [retitled] false) any_row
                               "guerre" with_full) in
  movie_table (db w') !! "tt0076759" = Some star_wars_full ∧
  genres_of (db w') "tt0076759" = genres_of (db with_full) "tt0076759".
Proof.
  intros retitled.
  apply (search_leaves_stored_movies (search_yields [retitled] false) any_row
           "guerre" with_full "tt0076759" star_wars_full).
  closed.
Defined.

(** Two unknown IDs: two partial records. *)
Lemma unknown_result_becomes_partial_record_example :
  let w := world_of empty_store noon in
  let w' := world_after
              (search_and_save (search_yields [star_wars; empire] false)
                               any_row "star wars" w) in
  size (movie_table (db w')) = 2%nat ∧
  movie_table (db w') !! "tt0076759"
  = Some (Movie.make "tt0076759" "Star Wars" 1977 None None false) ∧
  movie_table (db w') !! "tt0080684"
  = Some (Movie.make "tt0080684" "The Empire Strikes Back" 1980 None None
                     false).
Proof.
  intros w.
  destruct (unknown_result_becomes_partial_record
              (search_yields [star_wars; empire] false) any_row
              "star wars" w) as [_ H].
  destruct (H eq_refl) as [Hrow Hsize]. split; [| split].
  - apply Hsize.
    + apply (bool_decide_unpack _). closed.
    + repeat (constructor; [closed |]). constructor.
    + repeat (constructor; [closed |]). constructor.
  - apply (Hrow 0%nat star_wars); [closed | closed | intros j ? Hj; lia |].
    repeat (constructor; [closed |]). constructor.
  - apply (Hrow 1%nat empire); [closed | closed | |].
    + intros [|j] earlier Hj Hl; [| lia]. injection Hl as <-. closed.
    + repeat (constructor; [closed |]). constructor.
Defined.

(** The store refuses the second of three results. *)
Lemma failed_save_aborts_the_batch_example :
  let w := world_of empty_store noon in
  ∃ w', search_and_save (search_yields [star_wars; undated; empire] false)
          year_not_negative "star wars" w = Raise DatabaseError w' ∧
        movie_table (db w') !! "tt0076759" = Some (partial_of star_wars) ∧
        movie_table (db w') !! "tt0000000" = None ∧
        movie_table (db w') !! "tt0080684" = None.
Proof.
  intros w.
  destruct (failed_save_aborts_the_batch
              (search_yields [star_wars; undated; empire] false)
              year_not_negative "star wars" w [star_wars] undated [empire])
    as (w' & E & Htbl & _ & _ & _).
  - closed.
  - closed.
  - repeat (constructor; [closed |]). constructor.
  - closed.
  - closed.
  - closed.
  - exists w'. split; [exact E |]. rewrite !Htbl. repeat split; closed.
Defined.

Lemma star_wars_spellings :
  Text.same_up_to_spacing_and_case "Star  Wars" "star wars".
Proof.
  eapply rtc_l; [left; apply (Text.edit_case "" "tar  Wars" "S" "s") |].
  { split; [left; split; closed | closed]. }
  eapply rtc_l; [left; apply (Text.edit_case "star  " "ars" "W" "w") |].
  { split; [left; split; closed | closed]. }
  eapply rtc_l; [right; apply (Text.edit_run "star" "wars" " " " ") |];
    [closed | closed |].
  apply rtc_refl.
Defined.

Lemma same_search_same_term_example :
  Text.normalized_search_term "Star  Wars"
  = Text.normalized_search_term "star wars" ∧
  searched_recently "Star  Wars" (searched (hours 23))
  = searched_recently "star wars" (searched (hours 23)).
Proof.
  destruct (same_search_same_term (search_yields [] false) any_row)
    as [H _].
  destruct (H "Star  Wars" "star wars" star_wars_spellings) as [E Hw].
  split; [exact E | apply Hw].
Defined.

(** What the two counters count. *)
Example rises_and_falls_count :
  falls [Some true; Some false; Some true; None] = 2%nat ∧
  rises [Some false; Some true; Some false; Some true] = 2%nat.
Proof. by vm_compute. Qed.

(** Search, fill, wait three days, search again. *)
Lemma full_record_flag_never_reverts_example :
  let ops := [Search "Star Wars"; Fill (partial_of star_wars);
              Sleep 259200000000; Search "Star Wars"] in
  let tr := map (stored_flag "tt0076759")
                (history (details_are (Some star_wars_details))
                         (search_yields [star_wars] false) any_row ops
                         (world_of empty_store noon)) in
  tr = [None; Some false; Some true; Some true; Some true] ∧
  falls tr = 0%nat ∧ (rises tr ≤ 1)%nat ∧
  stored_flag "tt0076759"
    (world_after (search_and_save (search_yields [star_wars] false) any_row
                                  "Star Wars" with_full))
  = stored_flag "tt0076759" with_full.
Proof.
  intros ops tr.
  destruct (full_record_flag_never_reverts
              (details_are (Some star_wars_details))
              (search_yields [star_wars] false) any_row)
    as (Hrun & Hsearch & _).
  split; [closed |]. split; [apply Hrun |]. split; [apply Hrun |].
  apply Hsearch. vm_compute. by eexists.
Defined.

(** "star wars" has just been searched; " star wars" is searched all the
    same, and the SearchTerm of "star wars" is not touched by it. *)
Lemma outer_whitespace_stays_in_the_term_example :
  let w := searched 0 in
  let w' := world_after
              (search_and_save (search_yields [star_wars] false) any_row
                               " star wars" w) in
  search_term_table (db w') !! Text.normalized_search_term "star wars"
  = search_term_table (db w) !! Text.normalized_search_term "star wars" ∧
  api_calls w' = [SearchCall " star wars"] ∧
  (∃ rest, Text.normalized_search_term "   Star Wars" = String " " rest ∧
           Text.starts_with_space rest = false).
Proof.
  intros w.
  destruct (outer_whitespace_stays_in_the_term
              (search_yields [star_wars] false) any_row)
    as (Hlead & _ & _ & _ & Hapart).
  split; [| split].
  - apply (Hapart " star wars" "star wars" w). closed.
  - closed.
  - apply Hlead. closed.
Defined.

End Examples.

(** * Further properties *)

(** ** The normalized search term *)

Module NormalFacts.
Import Text Normal.

Lemma lower_char_twice (c : ascii) : lower_char (lower_char c) = lower_char c.
Proof. TextFacts.by_character c. Qed.

Lemma lowercase_lower (s : string) : lowercase (lower s) = true.
Proof.
  induction s as [|c s IH]; simpl; [reflexivity |].
  by rewrite IH, bool_decide_eq_true_2 by apply lower_char_twice.
Qed.

Lemma lower_fixed (s : string) : lowercase s = true → lower s = s.
Proof.
  induction s as [|c s IH]; simpl; [reflexivity |].
  intros [Hc Hs]%andb_prop. apply bool_decide_eq_true_1 in Hc.
  by rewrite Hc, IH.
Qed.

Lemma lowercase_sub_spaces (r : bool) (t : string) :
  lowercase t = true → lowercase (sub_spaces r t) = true.
Proof.
  revert r. induction t as [|c t IH]; intros r; simpl; [reflexivity |].
  intros [Hc Ht]%andb_prop.
  destruct (is_space c), r; simpl; rewrite ?Hc; simpl; by apply IH.
Qed.

Lemma single_spaced_sub_spaces (t : string) :
  (∀ b, single_spaced b (sub_spaces true t) = true) ∧
  single_spaced false (sub_spaces false t) = true.
Proof.
  induction t as [|c t [IHrun IHnew]]; simpl; [by split |].
  destruct (is_space c) eqn:Hc; simpl; rewrite ?Hc.
  - split; [exact IHrun |]. by rewrite IHrun.
  - split; [intros _; exact IHnew | exact IHnew].
Qed.

Lemma sub_spaces_fixed (b : bool) (s : string) :
  single_spaced b s = true → sub_spaces b s = s.
Proof.
  revert b. induction s as [|c s IH]; intros b; simpl; [reflexivity |].
  destruct (is_space c).
  - intros [[Hc Hb]%andb_prop Hs]%andb_prop.
    apply bool_decide_eq_true_1 in Hc. apply negb_true_iff in Hb.
    subst b c. by rewrite (IH true Hs).
  - intros Hs. by rewrite (IH false Hs).
Qed.

Lemma normal_normalized (s : string) :
  normal (normalized_search_term s) = true.
Proof.
  unfold normal, normalized_search_term, collapse_whitespace.
  rewrite lowercase_sub_spaces by apply lowercase_lower.
  by rewrite (proj2 (single_spaced_sub_spaces _)).
Qed.

(** X1: the normalized search term holds no capital letter, its only
    whitespace characters are plain spaces, and no two of them are
    adjacent. *)
Theorem normalized_term_is_normal (s : string) :
  lowercase (normalized_search_term s) = true ∧
  single_spaced false (normalized_search_term s) = true.
Proof.
  unfold normalized_search_term, collapse_whitespace. split.
  - apply lowercase_sub_spaces, lowercase_lower.
  - apply single_spaced_sub_spaces.
Qed.

(** X2: among the strings over the code points U+0000 to U+00FF, those
    that normalization leaves as they are are exactly the normal ones; so
    normalizing twice is normalizing once. *)
Theorem normalization_fixed_points (s : string) :
  (normalized_search_term s = s ↔ normal s = true) ∧
  normalized_search_term (normalized_search_term s)
  = normalized_search_term s.
Proof.
  assert (Hfix : ∀ t, normal t = true → normalized_search_term t = t).
  { intros t [Hl Hs]%andb_prop.
    unfold normalized_search_term, collapse_whitespace.
    rewrite (lower_fixed _ Hl). by apply sub_spaces_fixed. }
  split; [split |].
  - intros E. rewrite <- E. apply normal_normalized.
  - apply Hfix.
  - apply Hfix, normal_normalized.
Qed.

Lemma all_space_lower (s : string) : all_space (lower s) = all_space s.
Proof.
  induction s as [|c s IH]; simpl; [reflexivity |].
  by rewrite TextFacts.is_space_lower_char, IH.
Qed.

Lemma sub_spaces_all_space (t : string) :
  all_space t = true → sub_spaces true t = EmptyString.
Proof.
  induction t as [|c t IH]; simpl; [reflexivity |].
  intros [-> Ht]%andb_prop. by apply IH.
Qed.

Lemma sub_spaces_empty (b : bool) (t : string) :
  sub_spaces b t = EmptyString → all_space t = true.
Proof.
  revert b. induction t as [|c t IH]; intros b; simpl; [reflexivity |].
  destruct (is_space c), b; simpl; try discriminate. apply IH.
Qed.

Lemma sub_spaces_length (b : bool) (t : string) :
  (String.length (sub_spaces b t) ≤ String.length t)%nat.
Proof.
  revert b. induction t as [|c t IH]; intros b; simpl; [lia |].
  pose proof (IH true) as Hrun. pose proof (IH false) as Hnew.
  destruct (is_space c), b; simpl; lia.
Qed.

Lemma lower_length (s : string) : String.length (lower s) = String.length s.
Proof. induction s as [|c s IH]; simpl; [reflexivity | by rewrite IH]. Qed.

(** X3: for search strings over the code points U+0000 to U+00FF: the
    empty search string, and no other, has the empty term; the non-empty
    strings of whitespace only, and no others, have the term " "; and a
    term is never longer than its search string. *)
Theorem normalized_small_terms (s : string) :
  (normalized_search_term s = EmptyString ↔ s = EmptyString) ∧
  (normalized_search_term s = " " ↔ s ≠ EmptyString ∧ all_space s = true) ∧
  (String.length (normalized_search_term s) ≤ String.length s)%nat.
Proof.
  unfold normalized_search_term, collapse_whitespace. split; [| split].
  - split; [| by intros ->].
    destruct s as [|c s]; [done |]. simpl.
    by destruct (is_space (lower_char c)).
  - destruct s as [|c s]; simpl; [split; [discriminate | by intros [? _]] |].
    rewrite TextFacts.is_space_lower_char. destruct (is_space c) eqn:Hc; simpl.
    + split.
      * intros E. injection E as E. split; [done |].
        rewrite <- all_space_lower. by eapply sub_spaces_empty.
      * intros [_ Hs]. rewrite sub_spaces_all_space; [done |].
        by rewrite all_space_lower.
    + split; [| by intros [_ ?]].
      intros E. injection E as E _.
      pose proof (TextFacts.is_space_lower_char c) as Hl.
      rewrite E, Hc in Hl. discriminate.
  - rewrite <- (lower_length s). apply sub_spaces_length.
Qed.

Lemma remove_spaces_sub_spaces (b : bool) (t : string) :
  remove_spaces (sub_spaces b t) = remove_spaces t.
Proof.
  revert b. induction t as [|c t IH]; intros b; simpl; [reflexivity |].
  destruct (is_space c) eqn:Hc, b; simpl; rewrite ?Hc; by rewrite IH.
Qed.

(** X4: after the lowercasing, normalization drops, adds and reorders
    nothing but whitespace: without its whitespace, the term is
    [search.lower()] without its whitespace. *)
Theorem normalization_keeps_the_letters (s : string) :
  remove_spaces (normalized_search_term s) = remove_spaces (lower s).
Proof.
  unfold normalized_search_term, collapse_whitespace.
  apply remove_spaces_sub_spaces.
Qed.

End NormalFacts.

(** ** More on [search_and_save] *)

Section MoreFacts.

Context {Remote : Type}.
Context (omdb_get_by_imdb_id
           : Remote → string → @Reply Remote (option Details.t)).
Context (omdb_search
           : Remote → string → @Reply Remote (list OmdbMovie.t * bool)).
Context (movie_row_ok : Movie.t → bool).

Implicit Types (w : @World Remote) (omdb_movie : OmdbMovie.t)
  (results : list OmdbMovie.t) (movie : Movie.t) (search imdb_id : string).

(** The clock and the SearchTerm of the search after a call, however it
    ends: the timestamp is the old one, the one of the creation, or the
    one of the final save. *)
Lemma search_term_stamp search w :
  let term := Text.normalized_search_term search in
  let w' := world_after (search_and_save omdb_search movie_row_ok search w) in
  clock w ≤ clock w' ∧
  (search_term_table (db w') !! term = search_term_table (db w) !! term ∨
   search_term_table (db w') !! term = Some (clock w) ∨
   search_term_table (db w') !! term = Some (clock w')).
Proof.
  intros term w'. subst w'. rewrite search_and_save_eq. cbv zeta. fold term.
  destruct (search_term_table (db w) !! term) as [ts|] eqn:Hts.
  - case_bool_decide; [simpl; split; [lia | by left] |].
    rewrite run_search_eq. cbv zeta.
    match goal with |- context [for_in (yields ?rs ?f) _ ?w1] =>
      pose proof (loop_keeps movie_row_ok rs f w1) as [R _] end.
    destruct (for_in _ _ _) as [[] w2 | e w2]; simpl in *;
      unfold rest_of in R; simpl in R; injection R as _ _ Es Ec _ _.
    + split; [lia |]. right. right. by rewrite lookup_insert_eq.
    + split; [lia |]. left. by rewrite Es.
  - rewrite run_search_eq. cbv zeta.
    match goal with |- context [for_in (yields ?rs ?f) _ ?w1] =>
      pose proof (loop_keeps movie_row_ok rs f w1) as [R _] end.
    destruct (for_in _ _ _) as [[] w2 | e w2]; simpl in *;
      unfold rest_of in R; simpl in R; injection R as _ _ Es Ec _ _.
    + split; [lia |]. right. right. by rewrite lookup_insert_eq.
    + split; [lia |]. right. left. by rewrite Es, lookup_insert_eq.
Qed.

Lemma loop_ok_stored results w :
  Forall (λ r, is_Some (movie_table (db w) !! OmdbMovie.imdb_id r) ∨
               movie_row_ok (partial_of r) = true) results →
  ∃ w', for_in (map mret results) (save_result movie_row_ok) w = Ok tt w' ∧
        movie_table (db w') = add_rows results (movie_table (db w)) ∧
        rest_of w' = rest_of w.
Proof.
  revert w. induction results as [|r results IH]; intros w Hall.
  - by exists w.
  - apply Forall_cons in Hall as [Hr Hall].
    simpl map. rewrite for_in_yield.
    destruct (save_result_ok movie_row_ok r w Hr) as (w1 & -> & T1 & R1).
    destruct (IH w1) as (w2 & E2 & T2 & R2).
    { eapply Forall_impl; [exact Hall |]. intros x [Hx | Hx]; [| by right].
      left. rewrite T1. unfold add_row.
      destruct (movie_table (db w) !! OmdbMovie.imdb_id r); [exact Hx |].
      apply lookup_insert_is_Some'. by right. }
    exists w2. split; [exact E2 |]. split; [| congruence].
    rewrite T2, T1. reflexivity.
Qed.

Lemma first_with_Some imdb_id results omdb_movie :
  first_with imdb_id results = Some omdb_movie →
  omdb_movie ∈ results ∧ OmdbMovie.imdb_id omdb_movie = imdb_id.
Proof.
  induction results as [|x results IH]; [discriminate |].
  rewrite first_with_cons. case_bool_decide as Hx.
  - intros [= <-]. split; [apply list_elem_of_here | exact Hx].
  - intros H. destruct (IH H) as [Hin Hid].
    split; [by apply list_elem_of_further | exact Hid].
Qed.

(** An executed search whose rows the store accepts: the world in which
    the loop has gone through all the results. *)
Lemma executed_search_loop search w :
  searched_recently search w = false →
  let r := omdb_search (remote w) search in
  Forall (λ x, is_Some (movie_table (db w) !! OmdbMovie.imdb_id x) ∨
               movie_row_ok (partial_of x) = true) (answer r).1 →
  ∃ w2, movie_table (db w2) = add_rows (answer r).1 (movie_table (db w)) ∧
        search_term_table (db w2) !! Text.normalized_search_term search
        = Some (default (clock w)
                  (search_term_table (db w)
                   !! Text.normalized_search_term search)) ∧
        search_and_save omdb_search movie_row_ok search w =
        if (answer r).2 then Raise ClientError w2
        else Ok tt (with_db (put_search_term
                               (Text.normalized_search_term search)
                               (clock w2)) w2).
Proof.
  intros Hrec r Hall. unfold searched_recently in Hrec.
  rewrite search_and_save_eq. cbv zeta.
  destruct (search_term_table (db w) !! _) as [ts|] eqn:Hts.
  - rewrite Hrec, run_search_eq. cbv zeta. fold r.
    unfold yields. rewrite for_in_app.
    destruct (loop_ok_stored _ (called (SearchCall search) r w) Hall)
      as (w2 & -> & T2 & R2).
    unfold rest_of in R2. simpl in R2. injection R2 as _ _ Es _ _ _.
    exists w2. split; [exact T2 |]. split; [by rewrite Es |].
    by destruct ((answer r).2).
  - rewrite run_search_eq. cbv zeta. simpl remote. fold r.
    unfold yields. rewrite for_in_app.
    destruct (loop_ok_stored _
                (called (SearchCall search) r
                   (with_db (put_search_term
                               (Text.normalized_search_term search) (clock w))
                            w)) Hall)
      as (w2 & -> & T2 & R2).
    unfold rest_of in R2. simpl in R2. injection R2 as _ _ Es _ _ _.
    exists w2. split; [exact T2 |].
    split; [by rewrite Es, lookup_insert_eq |].
    by destruct ((answer r).2).
Qed.

(** X5: a search that ends with an exception leaves the timestamp of a
    SearchTerm that existed as it was: the failed search does not count as
    a search.  When the client raises after its last result and the store
    accepts the rows, every result is stored all the same. *)
Theorem failed_search_keeps_the_timestamp search w (last_search : Z) :
  search_term_table (db w) !! Text.normalized_search_term search
    = Some last_search →
  (∀ e w', search_and_save omdb_search movie_row_ok search w = Raise e w' →
           search_term_table (db w') !! Text.normalized_search_term search
           = Some last_search) ∧
  (searched_recently search w = false →
   let r := omdb_search (remote w) search in
   (answer r).2 = true →
   Forall (λ x, movie_row_ok (partial_of x) = true) (answer r).1 →
   ∃ w', search_and_save omdb_search movie_row_ok search w
         = Raise ClientError w' ∧
         ∀ x, x ∈ (answer r).1 →
              is_Some (movie_table (db w') !! OmdbMovie.imdb_id x)).
Proof.
  intros Hts. split.
  - intros e w' Hraise. rewrite search_and_save_eq in Hraise.
    cbv zeta in Hraise. rewrite Hts in Hraise.
    case_bool_decide; [discriminate |].
    rewrite run_search_eq in Hraise. cbv zeta in Hraise.
    match type of Hraise with context [for_in (yields ?rs ?f) _ ?w1] =>
      pose proof (loop_keeps movie_row_ok rs f w1) as [R _] end.
    destruct (for_in _ _ _) as [[] w2 | e2 w2]; [discriminate |].
    injection Hraise as _ <-. unfold rest_of in R. simpl in R.
    injection R as _ _ Es _ _ _. by rewrite Es.
  - intros Hrec r Hfails Hall.
    destruct (executed_search_loop search w Hrec) as (w2 & T2 & _ & E).
    { eapply Forall_impl; [exact Hall |]. intros x Hx. by right. }
    fold r in E, T2. rewrite Hfails in E. exists w2. split; [exact E |].
    intros x Hx. rewrite T2, add_rows_lookup.
    destruct (movie_table (db w) !! OmdbMovie.imdb_id x); [done |].
    by destruct (first_with_elem _ x Hx) as [y ->].
Qed.

(** X6: [search_and_save] calls the client at most once, with the search
    string as it was given, and does so exactly when the recency check of
    line 56 lets it: never for a term searched within the last day, always
    for a term unknown so far. *)
Theorem search_calls_the_client_once search w :
  api_calls (world_after (search_and_save omdb_search movie_row_ok search w))
  = api_calls w ++ (if searched_recently search w then []
                    else [SearchCall search]) ∧
  (search_term_table (db w) !! Text.normalized_search_term search = None →
   searched_recently search w = false).
Proof.
  split; [| unfold searched_recently; by intros ->].
  destruct (searched_recently search w) eqn:Hrec.
  - rewrite (search_skipped _ _ _ _ Hrec). simpl. by rewrite app_nil_r.
  - destruct (search_executed omdb_search movie_row_ok _ _ Hrec)
      as (st & w0 & -> & _ & _ & _ & _ & _ & _ & _ & Ea).
    destruct (run_search_world omdb_search movie_row_ok search st w0)
      as (_ & _ & _ & _ & _ & ->).
    by rewrite Ea.
Qed.

(** X7: after an executed search whose results are each stored already
    or accepted by the store, the movie table holds the rows it had and,
    for every other ID among the results, the partial record of the first
    result that carries it -- whether or not the client raises after its
    last result.  When every result is stored already, the movie table is
    the same as before. *)
Theorem search_table_after search w :
  searched_recently search w = false →
  let results := (answer (omdb_search (remote w) search)).1 in
  let w' := world_after (search_and_save omdb_search movie_row_ok search w) in
  (Forall (λ x, is_Some (movie_table (db w) !! OmdbMovie.imdb_id x) ∨
                movie_row_ok (partial_of x) = true) results →
   ∀ imdb_id,
     movie_table (db w') !! imdb_id =
     match movie_table (db w) !! imdb_id with
     | Some movie => Some movie
     | None => partial_of <$> first_with imdb_id results
     end) ∧
  (Forall (λ x, is_Some (movie_table (db w) !! OmdbMovie.imdb_id x)) results →
   movie_table (db w') = movie_table (db w)).
Proof.
  intros Hrec results w'.
  assert (Htbl : Forall (λ x, is_Some (movie_table (db w)
                                         !! OmdbMovie.imdb_id x) ∨
                              movie_row_ok (partial_of x) = true) results →
                 ∀ imdb_id,
                   movie_table (db w') !! imdb_id =
                   match movie_table (db w) !! imdb_id with
                   | Some movie => Some movie
                   | None => partial_of <$> first_with imdb_id results
                   end).
  { intros Hall id.
    destruct (executed_search_loop search w Hrec Hall) as (w2 & T2 & _ & E).
    subst w'. rewrite E.
    destruct ((answer (omdb_search (remote w) search)).2); simpl;
      by rewrite T2, add_rows_lookup. }
  split; [exact Htbl |]. intros Hall. apply map_eq. intros id.
  rewrite Htbl by (eapply Forall_impl; [exact Hall |]; intros x Hx; by left).
  destruct (movie_table (db w) !! id) eqn:Hid; [reflexivity |].
  destruct (first_with id results) as [x|] eqn:Hx; [| reflexivity].
  apply first_with_Some in Hx as [Hin <-].
  eapply Forall_forall in Hall; [| exact Hin].
  rewrite Hid in Hall. by destruct Hall.
Qed.

(** X8: after a search that was executed and came to its end, a search
    for any string with the same normalized term is skipped while less
    than 24 hours have passed, and is executed once 24 hours or more have
    passed. *)
Theorem completed_search_limits_the_next search search' w w1 (d : N) :
  searched_recently search w = false →
  search_and_save omdb_search movie_row_ok search w = Ok tt w1 →
  Text.normalized_search_term search' = Text.normalized_search_term search →
  let w2 := run_op omdb_get_by_imdb_id omdb_search movie_row_ok (Sleep d) w1 in
  (Z.of_N d < timedelta_days 1 →
   search_and_save omdb_search movie_row_ok search' w2 =
   Ok tt (append_log
            (searched_recently_entry (Text.normalized_search_term search'))
            w2)) ∧
  (timedelta_days 1 ≤ Z.of_N d →
   api_calls (world_after
                (search_and_save omdb_search movie_row_ok search' w2))
   = api_calls w2 ++ [SearchCall search']).
Proof.
  intros Hrec Hok Hsame w2.
  assert (Hrow : search_term_table (db w1) !! Text.normalized_search_term search
                 = Some (clock w1)).
  { rewrite search_and_save_eq in Hok. cbv zeta in Hok.
    unfold searched_recently in Hrec.
    destruct (search_term_table (db w) !! _) as [ts|];
      [rewrite Hrec in Hok |];
      rewrite run_search_eq in Hok; cbv zeta in Hok;
      (destruct (for_in _ _ _) as [[] w3 | e w3]; [| discriminate]);
      injection Hok as <-; simpl; apply lookup_insert_eq. }
  assert (Hrec2 : searched_recently search' w2
                  = bool_decide (Z.of_N d < timedelta_days 1)).
  { unfold searched_recently. rewrite Hsame. subst w2. simpl. rewrite Hrow.
    apply bool_decide_ext. lia. }
  split; intros Hd.
  - apply search_skipped. rewrite Hrec2. by apply bool_decide_eq_true_2.
  - assert (Hrec3 : searched_recently search' w2 = false)
      by (rewrite Hrec2; apply bool_decide_eq_false_2; lia).
    destruct (search_executed omdb_search movie_row_ok _ _ Hrec3)
      as (st & w0 & -> & _ & _ & _ & _ & _ & _ & _ & Ea).
    destruct (run_search_world omdb_search movie_row_ok search' st w0)
      as (_ & _ & _ & _ & _ & ->).
    by rewrite Ea.
Qed.

(** ** More on [fill_movie_details] *)

Lemma other_genres_kept (mg mg' : gset (string * Genre))
      (genre_names : list string) imdb_id (other : string) (g : Genre) :
  mg' = filter (λ p, p.1 ≠ imdb_id) mg
        ∪ list_to_set (pair imdb_id <$> genre_names) →
  other ≠ imdb_id →
  (other, g) ∈ mg' ↔ (other, g) ∈ mg.
Proof.
  intros -> Hne.
  rewrite elem_of_union, elem_of_filter, elem_of_list_to_set,
    list_elem_of_fmap. simpl. split.
  - intros [[_ Hin] | (g' & Hg & _)]; [done | by simplify_eq].
  - intros Hin. by left.
Qed.

(** What a call leaves of the world, however it ends. *)
Lemma fill_world movie w :
  let w' := world_after
              (fill_movie_details omdb_get_by_imdb_id movie_row_ok movie w) in
  search_term_table (db w') = search_term_table (db w) ∧
  genre_table (db w) ⊆ genre_table (db w') ∧
  (∀ other, other ≠ Movie.imdb_id movie →
            movie_table (db w') !! other = movie_table (db w) !! other ∧
            genres_of (db w') other = genres_of (db w) other) ∧
  (is_Some (movie_table (db w) !! Movie.imdb_id movie) →
   is_Some (movie_table (db w') !! Movie.imdb_id movie)) ∧
  clock w ≤ clock w'.
Proof.
  cbv zeta. destruct (Movie.is_full_record movie) eqn:Hflag.
  - rewrite (fill_full _ _ _ _ Hflag). simpl.
    repeat split; auto; lia.
  - pose proof (fill_partial omdb_get_by_imdb_id movie_row_ok movie w Hflag)
      as H. cbv zeta in H.
    destruct (answer _) as [d|]; [| rewrite H; simpl; repeat split; auto; lia].
    destruct (movie_table (db w) !! Movie.imdb_id movie) as [stored|] eqn:Hrow.
    + destruct H as (w2 & Em & Eg & Emg & Es & Ec & _ & _ & _ & ->).
      assert (Hothers : ∀ other, other ≠ Movie.imdb_id movie →
                genres_of (db w2) other = genres_of (db w) other).
      { intros other Hne. apply set_eq. intros g. rewrite !genres_of_eq.
        by eapply other_genres_kept. }
      assert (Hsub : genre_table (db w) ⊆ genre_table (db w2)).
      { rewrite Eg. intros x Hx. apply elem_of_union. by left. }
      simpl in Ec.
      destruct (movie_row_ok _); simpl; rewrite ?Em, ?Es;
        (split; [reflexivity |]); (split; [exact Hsub |]);
        (split; [| split; [| lia]]).
      * intros other Hne. split; [by rewrite lookup_insert_ne | by apply Hothers].
      * intros _. by rewrite lookup_insert_eq.
      * intros other Hne. split; [reflexivity | by apply Hothers].
      * by rewrite Hrow.
    + rewrite H. simpl. repeat split; auto; [by intros [? ?] | lia].
Qed.

(** X9: when the client raises, [fill_movie_details] raises the client's
    error after that one call and has written nothing: the store and the
    log are as before, the movie keeps its genres and stays partial. *)
Theorem fill_client_error_writes_nothing movie w :
  Movie.is_full_record movie = false →
  answer (omdb_get_by_imdb_id (remote w) (Movie.imdb_id movie)) = None →
  ∃ w', fill_movie_details omdb_get_by_imdb_id movie_row_ok movie w
        = Raise ClientError w' ∧
        db w' = db w ∧ log w' = log w ∧
        api_calls w' = api_calls w ++ [GetByImdbId (Movie.imdb_id movie)].
Proof.
  intros Hflag Hanswer.
  pose proof (fill_partial omdb_get_by_imdb_id movie_row_ok movie w Hflag)
    as H. cbv zeta in H. rewrite Hanswer in H.
  eexists. split; [exact H |]. by simpl.
Qed.



(** X11: filling is done once.  On the movie object that a successful
    call has left, a second call returns at once: the same object, the
    same store, no further call on the client, one warning. *)
Theorem fill_twice_is_fill_once movie movie' w w' :
  fill_movie_details omdb_get_by_imdb_id movie_row_ok movie w = Ok movie' w' →
  ∃ w'', fill_movie_details omdb_get_by_imdb_id movie_row_ok movie' w'
         = Ok movie' w'' ∧
         db w'' = db w' ∧ api_calls w'' = api_calls w' ∧
         log w'' = log w' ++ [already_full_entry movie'].
Proof.
  intros Hok.
  assert (Hfull : Movie.is_full_record movie' = true).
  { destruct (Movie.is_full_record movie) eqn:Hflag.
    - rewrite (fill_full _ _ _ _ Hflag) in Hok. by injection Hok as <- _.
    - pose proof (fill_partial omdb_get_by_imdb_id movie_row_ok movie w Hflag)
        as H. cbv zeta in H.
      destruct (answer _) as [d|]; [| rewrite H in Hok; discriminate].
      destruct (movie_table (db w) !! Movie.imdb_id movie) as [stored|];
        [| rewrite H in Hok; discriminate].
      destruct H as (w2 & _ & _ & _ & _ & _ & _ & _ & _ & E).
      rewrite E in Hok. destruct (movie_row_ok _); [| discriminate].
      by injection Hok as <- _. }
  rewrite (fill_full _ _ _ _ Hfull). by eexists.
Qed.

(** X12: however it ends, [fill_movie_details] touches no movie but its
    own -- the rows and the genres of all other movies are as before --,
    no search term, and removes no genre from the genre table. *)
Theorem fill_touches_its_movie_only movie w (other : string) :
  other ≠ Movie.imdb_id movie →
  let w' := world_after
              (fill_movie_details omdb_get_by_imdb_id movie_row_ok movie w) in
  movie_table (db w') !! other = movie_table (db w) !! other ∧
  genres_of (db w') other = genres_of (db w) other ∧
  search_term_table (db w') = search_term_table (db w) ∧
  genre_table (db w) ⊆ genre_table (db w').
Proof.
  intros Hne w'. destruct (fill_world movie w) as (Es & Hg & Hother & _).
  destruct (Hother other Hne) as [Hrow Hgenres]. by repeat split.
Qed.

(** X13: [fill_movie_details] calls the client at most once, with the
    movie's ID, and does so exactly when the movie object's flag is
    false. *)
Theorem fill_calls_the_client_once movie w :
  api_calls (world_after
               (fill_movie_details omdb_get_by_imdb_id movie_row_ok movie w))
  = api_calls w ++ (if Movie.is_full_record movie then []
                    else [GetByImdbId (Movie.imdb_id movie)]).
Proof.
  destruct (Movie.is_full_record movie) eqn:Hflag.
  - rewrite (fill_full _ _ _ _ Hflag). simpl. by rewrite app_nil_r.
  - pose proof (fill_partial omdb_get_by_imdb_id movie_row_ok movie w Hflag)
      as H. cbv zeta in H.
    destruct (answer _) as [d|]; [| by rewrite H].
    destruct (movie_table (db w) !! Movie.imdb_id movie) as [stored|];
      [| by rewrite H].
    destruct H as (w2 & _ & _ & _ & _ & _ & _ & _ & Ea & ->).
    by destruct (movie_row_ok _).
Qed.

(** ** [get_or_create_genres] consumed as a whole *)

Lemma collect_cons {A} (next : M A) (gen : generator A) w :
  collect (next :: gen) w =
  match next w with
  | Ok x w1 => match collect gen w1 with
               | Ok xs w2 => Ok (x :: xs) w2
               | Raise e w2 => Raise e w2
               end
  | Raise e w1 => Raise e w1
  end.
Proof. reflexivity. Qed.

Lemma collect_known_genres (genre_names : list string) w :
  Forall (λ n, n ∈ genre_table (db w)) genre_names →
  collect (get_or_create_genres genre_names) w = Ok genre_names w.
Proof.
  induction 1 as [|n names Hn _ IH]; [reflexivity |].
  unfold get_or_create_genres. simpl map.
  fold (get_or_create_genres (Remote := Remote) names).
  rewrite collect_cons.
  unfold mbind, M_bind, mret, M_ret, Genre_get_or_create.
  rewrite decide_True by exact Hn. by rewrite IH.
Qed.

(** X14: consumed as a whole, [get_or_create_genres] yields one genre
    per name, in the order of the names, repeated names included.  The
    genre table gains exactly the names it did not have and nothing else
    of the world changes; consumed again on the same names, it changes
    nothing at all. *)
Theorem genres_are_got_or_created (genre_names : list string) w :
  ∃ w', collect (get_or_create_genres genre_names) w = Ok genre_names w' ∧
        genre_table (db w') = genre_table (db w) ∪ list_to_set genre_names ∧
        movie_table (db w') = movie_table (db w) ∧
        movie_genres (db w') = movie_genres (db w) ∧
        search_term_table (db w') = search_term_table (db w) ∧
        log w' = log w ∧ api_calls w' = api_calls w ∧
        collect (get_or_create_genres genre_names) w' = Ok genre_names w'.
Proof.
  assert (Hrun : ∃ w',
            collect (get_or_create_genres genre_names) w = Ok genre_names w' ∧
            genre_table (db w') = genre_table (db w) ∪ list_to_set genre_names ∧
            movie_table (db w') = movie_table (db w) ∧
            movie_genres (db w') = movie_genres (db w) ∧
            search_term_table (db w') = search_term_table (db w) ∧
            log w' = log w ∧ api_calls w' = api_calls w).
  { revert w. induction genre_names as [|n names IH]; intros w.
    - exists w. simpl. rewrite (right_id_L ∅ (∪)). by repeat split.
    - unfold get_or_create_genres. simpl map.
      fold (get_or_create_genres (Remote := Remote) names).
      rewrite collect_cons.
      unfold mbind, M_bind, mret, M_ret, Genre_get_or_create.
      destruct (decide (n ∈ genre_table (db w))) as [Hin | Hout];
        match goal with |- context [collect _ ?w1] =>
          destruct (IH w1) as (w' & -> & Eg & Em & Emg & Es & El & Ea)
        end;
        exists w'; simpl in *; rewrite Eg, Em, Emg, Es, El, Ea;
        (split; [reflexivity |]);
        (split; [apply set_eq; intros ?;
                 rewrite ?elem_of_union, ?elem_of_singleton;
                 intuition (subst; auto) |]);
        by repeat split. }
  destruct Hrun as (w' & E & Eg & Em & Emg & Es & El & Ea).
  exists w'. repeat (split; [assumption |]).
  apply collect_known_genres. apply Forall_forall. intros n Hn.
  rewrite Eg. apply elem_of_union. right. by apply elem_of_list_to_set.
Qed.

(** ** Invariants of runs *)

Lemma nothing_lost_refl w : nothing_lost w w.
Proof. by repeat split. Qed.

Lemma nothing_lost_trans w1 w2 w3 :
  nothing_lost w1 w2 → nothing_lost w2 w3 → nothing_lost w1 w3.
Proof.
  intros (G1 & M1 & S1) (G2 & M2 & S2).
  repeat split; intros x Hx; auto.
Qed.

Lemma run_op_nothing_lost (op : Op) w :
  nothing_lost w (run_op omdb_get_by_imdb_id omdb_search movie_row_ok op w).
Proof.
  destruct op as [movie | search | d]; simpl; [| | by repeat split].
  - destruct (fill_world movie w) as (Es & Hg & Hother & Hown & _).
    split; [exact Hg |]. split; [| by rewrite Es].
    intros id Hid. apply elem_of_dom. apply elem_of_dom in Hid.
    destruct (decide (id = Movie.imdb_id movie)) as [-> | Hne];
      [by apply Hown |].
    by rewrite (proj1 (Hother id Hne)).
  - destruct (search_and_save_frame omdb_search movie_row_ok search w)
      as (K & Eg & _ & Hs).
    split; [by rewrite Eg |]. split.
    + intros id Hid. apply elem_of_dom. apply elem_of_dom in Hid as [m Hm].
      rewrite (K _ _ Hm). by eexists.
    + intros term Hterm. apply elem_of_dom. apply elem_of_dom in Hterm.
      destruct (decide (term = Text.normalized_search_term search))
        as [-> | Hne]; [apply search_files_the_term |].
      by rewrite Hs.
Qed.

(** X15: nothing is ever deleted.  Along every run of fills, searches
    and pauses, whatever fails on the way, every genre, every movie ID and
    every search term that the store holds at the start is held by every
    later world of the run. *)
Theorem runs_lose_nothing (ops : list Op) w w' :
  w' ∈ history omdb_get_by_imdb_id omdb_search movie_row_ok ops w →
  nothing_lost w w'.
Proof.
  revert w. induction ops as [|op ops IH]; intros w Hin.
  - apply list_elem_of_singleton in Hin as ->. apply nothing_lost_refl.
  - change (history omdb_get_by_imdb_id omdb_search movie_row_ok (op :: ops) w)
      with (w :: history omdb_get_by_imdb_id omdb_search movie_row_ok ops
                   (run_op omdb_get_by_imdb_id omdb_search movie_row_ok op w))
      in Hin.
    apply elem_of_cons in Hin as [-> | Hin]; [apply nothing_lost_refl |].
    eapply nothing_lost_trans; [apply run_op_nothing_lost | by apply IH].
Qed.

Lemma run_op_stamps (op : Op) w :
  stamps_in_the_past w →
  let w' := run_op omdb_get_by_imdb_id omdb_search movie_row_ok op w in
  stamps_in_the_past w' ∧ not_earlier w w'.
Proof.
  intros Hpast w'. subst w'.
  destruct op as [movie | search | d]; simpl.
  - destruct (fill_world movie w) as (Es & _ & _ & _ & Hc).
    split; [| split; [exact Hc |]].
    + intros term ts. rewrite Es. intros Hts. specialize (Hpast _ _ Hts). lia.
    + intros term ts Hts. rewrite Es. exists ts. split; [exact Hts | lia].
  - destruct (search_term_stamp search w) as (Hc & Hown).
    destruct (search_and_save_frame omdb_search movie_row_ok search w)
      as (_ & _ & _ & Hs).
    cbv zeta in Hc, Hown, Hs. split; [| split; [exact Hc |]].
    + intros term ts Hts.
      destruct (decide (term = Text.normalized_search_term search))
        as [-> | Hne].
      * destruct Hown as [E | [E | E]]; rewrite E in Hts.
        -- specialize (Hpast _ _ Hts). lia.
        -- injection Hts as <-. exact Hc.
        -- injection Hts as <-. lia.
      * rewrite Hs in Hts by exact Hne. specialize (Hpast _ _ Hts). lia.
    + intros term ts Hts. specialize (Hpast _ _ Hts).
      destruct (decide (term = Text.normalized_search_term search))
        as [-> | Hne].
      * destruct Hown as [E | [E | E]]; rewrite E.
        -- exists ts. split; [exact Hts | lia].
        -- eexists. split; [reflexivity | exact Hpast].
        -- eexists. split; [reflexivity | lia].
      * rewrite Hs by exact Hne. exists ts. split; [exact Hts | lia].
  - split; [| split; [simpl; lia |]].
    + intros term ts Hts. specialize (Hpast _ _ Hts). simpl. lia.
    + intros term ts Hts. exists ts. split; [exact Hts | lia].
Qed.

(** X16: from a world in which no last-search timestamp lies in the
    future, every world of every run is such a world, the clock never
    goes back, and no SearchTerm's timestamp ever decreases. *)
Theorem timestamps_only_advance (ops : list Op) w w' :
  stamps_in_the_past w →
  w' ∈ history omdb_get_by_imdb_id omdb_search movie_row_ok ops w →
  stamps_in_the_past w' ∧
  clock w ≤ clock w' ∧
  ∀ term last_search,
    search_term_table (db w) !! term = Some last_search →
    ∃ last_search', search_term_table (db w') !! term = Some last_search' ∧
                    last_search ≤ last_search'.
Proof.
  change (stamps_in_the_past w →
          w' ∈ history omdb_get_by_imdb_id omdb_search movie_row_ok ops w →
          stamps_in_the_past w' ∧ not_earlier w w').
  revert w. induction ops as [|op ops IH]; intros w Hpast Hin.
  - apply list_elem_of_singleton in Hin as ->.
    split; [exact Hpast |]. split; [lia |]. intros term ts Hts.
    exists ts. split; [exact Hts | lia].
  - change (history omdb_get_by_imdb_id omdb_search movie_row_ok (op :: ops) w)
      with (w :: history omdb_get_by_imdb_id omdb_search movie_row_ok ops
                   (run_op omdb_get_by_imdb_id omdb_search movie_row_ok op w))
      in Hin.
    apply elem_of_cons in Hin as [-> | Hin].
    { split; [exact Hpast |]. split; [lia |]. intros term ts Hts.
      exists ts. split; [exact Hts | lia]. }
    destruct (run_op_stamps op w Hpast) as [Hpast1 [Hc1 Hn1]].
    destruct (IH _ Hpast1 Hin) as [Hpast' [Hc' Hn']].
    split; [exact Hpast' |]. split; [lia |].
    intros term ts Hts. destruct (Hn1 _ _ Hts) as (ts1 & Hts1 & Hle1).
    destruct (Hn' _ _ Hts1) as (ts' & Hts' & Hle').
    exists ts'. split; [exact Hts' | lia].
Qed.

End MoreFacts.

(** ** Further worked examples *)

Module MoreExamples.
Import Sample.

Ltac closed := vm_compute; first [reflexivity | done].

Lemma normalization_fixed_points_example :
  Normal.normal "star wars" = true ∧
  Text.normalized_search_term "star wars" = "star wars".
Proof.
  split; [closed |].
  apply (proj2 (proj1 (NormalFacts.normalization_fixed_points "star wars"))).
  closed.
Defined.

(** A tab and two spaces make the term " ". *)
Lemma normalized_small_terms_example :
  Text.normalized_search_term (String "009"%char "  ") = " ".
Proof.
  apply (proj2 (proj1 (proj2 (NormalFacts.normalized_small_terms
                                (String "009"%char "  "))))).
  split; closed.
Defined.

(** The client yields Star Wars and then fails: the movie is stored, the
    term keeps its timestamp of 25 hours ago. *)
Lemma failed_search_keeps_the_timestamp_example :
  let w := searched (hours 25) in
  ∃ w', search_and_save (search_yields [star_wars] true) any_row
          "Star Wars" w = Raise ClientError w' ∧
        search_term_table (db w') !! "star wars" = Some (noon - hours 25) ∧
        is_Some (movie_table (db w') !! "tt0076759").
Proof.
  intros w.
  destruct (failed_search_keeps_the_timestamp
              (search_yields [star_wars] true) any_row "Star Wars" w
              (noon - hours 25) eq_refl) as [Hkeep Hraise].
  destruct (Hraise eq_refl eq_refl) as (w' & E & Hrows).
  { repeat (constructor; [closed |]). constructor. }
  exists w'. split; [exact E |]. split.
  - apply (Hkeep _ _ E).
  - apply (Hrows star_wars). apply list_elem_of_here.
Defined.

Lemma search_calls_the_client_once_example :
  let w := world_of empty_store noon in
  searched_recently "Star Wars" w = false ∧
  api_calls (world_after
               (search_and_save (search_yields [] false) any_row
                                "Star Wars" w))
  = api_calls w ++ (if searched_recently "Star Wars" w then []
                    else [SearchCall "Star Wars"]).
Proof.
  intros w.
  destruct (search_calls_the_client_once (search_yields [] false) any_row
              "Star Wars" w) as [Hcalls Hnew].
  split; [apply Hnew; closed | exact Hcalls].
Defined.

(** A known ID under another title and an unknown one. *)
Lemma search_table_after_example :
  let retitled := OmdbMovie.make "tt0076759" "La guerre des etoiles" 1978 in
  let w' := world_after
              (search_and_save (search_yields [retitled; empire] false)
                               year_not_negative "guerre" with_full) in
  movie_table (db w') !! "tt0076759" = Some star_wars_full ∧
  movie_table (db w') !! "tt0080684" = Some (partial_of empire) ∧
  movie_table
    (db (world_after
           (search_and_save (search_yields [retitled] false)
                            year_not_negative "guerre" with_full)))
  = movie_table (db with_full).
Proof.
  intros retitled w'.
  destruct (search_table_after (search_yields [retitled; empire] false)
              year_not_negative "guerre" with_full eq_refl) as [Htbl _].
  destruct (search_table_after (search_yields [retitled] false)
              year_not_negative "guerre" with_full eq_refl) as [_ Hsame].
  assert (Hall : Forall (λ x, is_Some (movie_table (db with_full)
                                         !! OmdbMovie.imdb_id x) ∨
                              year_not_negative (partial_of x) = true)
                        [retitled; empire]).
  { constructor; [left; vm_compute; by eexists |].
    constructor; [right; closed | constructor]. }
  split; [| split].
  - etrans; [apply (Htbl Hall "tt0076759") | closed].
  - etrans; [apply (Htbl Hall "tt0080684") | closed].
  - apply Hsame. constructor; [vm_compute; by eexists | constructor].
Defined.

(** Searched at noon; asked again 23 hours later in another spelling. *)
Lemma completed_search_limits_the_next_example :
  let client := search_yields [star_wars] false in
  let w := world_of empty_store noon in
  let w1 := world_after (search_and_save client any_row "Star Wars" w) in
  let w2 := run_op (details_are None) client any_row (Sleep 82800000000) w1 in
  search_and_save client any_row "star  WARS" w2 =
  Ok tt (append_log (searched_recently_entry "star wars") w2).
Proof.
  intros client w w1 w2.
  apply (completed_search_limits_the_next (details_are None) client any_row
           "Star Wars" "star  WARS" w w1 82800000000); closed.
Defined.

Lemma fill_client_error_writes_nothing_example :
  ∃ w', fill_movie_details (details_are None) any_row
          (partial_of star_wars) with_partial = Raise ClientError w' ∧
        db w' = db with_partial ∧ log w' = [] ∧
        api_calls w' = [GetByImdbId "tt0076759"].
Proof.
  apply (fill_client_error_writes_nothing (details_are None) any_row
           (partial_of star_wars) with_partial); reflexivity.
Defined.



Lemma fill_twice_is_fill_once_example :
  let client := details_are (Some star_wars_details) in
  let w' := world_after
              (fill_movie_details client any_row (partial_of star_wars)
                                  with_partial) in
  ∃ w'', fill_movie_details client any_row star_wars_full w'
         = Ok star_wars_full w'' ∧
         db w'' = db w' ∧ api_calls w'' = [GetByImdbId "tt0076759"].
Proof.
  intros client w'.
  destruct (fill_twice_is_fill_once client any_row (partial_of star_wars)
              star_wars_full with_partial w') as (w'' & E & Edb & Ea & _);
    [closed |].
  exists w''. split; [exact E |]. split; [exact Edb |].
  etrans; [exact Ea | closed].
Defined.

(** Filling Star Wars beside a stored Empire Strikes Back. *)
Lemma fill_touches_its_movie_only_example :
  let w := world_of
             {| movie_table := <["tt0080684" := partial_of empire]>
                                 {[ "tt0076759" := partial_of star_wars ]};
                genre_table := {[ "Comedy" ]};
                movie_genres := {[ ("tt0080684", "Comedy") ]};
                search_term_table := ∅ |} noon in
  let w' := world_after
              (fill_movie_details (details_are (Some star_wars_details))
                                  any_row (partial_of star_wars) w) in
  movie_table (db w') !! "tt0080684" = Some (partial_of empire) ∧
  genres_of (db w') "tt0080684" = {[ "Comedy" ]}.
Proof.
  intros w w'.
  destruct (fill_touches_its_movie_only
              (details_are (Some star_wars_details)) any_row
              (partial_of star_wars) w "tt0080684") as (Hrow & Hg & _);
    [closed |].
  split; [etrans; [exact Hrow | closed] | etrans; [exact Hg | closed]].
Defined.

(** A search and a fill from the world with the partial record. *)
Lemma runs_lose_nothing_example :
  let get := details_are (Some star_wars_details) in
  let search := search_yields [empire] false in
  let w1 := run_op get search any_row (Search "empire") with_partial in
  let w2 := run_op get search any_row (Fill (partial_of star_wars)) w1 in
  nothing_lost with_partial w2.
Proof.
  intros get search w1 w2.
  apply (runs_lose_nothing get search any_row
           [Search "empire"; Fill (partial_of star_wars)] with_partial w2).
  do 2 apply list_elem_of_further. apply list_elem_of_here.
Defined.

Lemma stamps_in_the_past_searched :
  stamps_in_the_past (searched (hours 25)).
Proof.
  intros term ts Hts. simpl in Hts.
  apply lookup_singleton_Some in Hts as [_ <-]. closed.
Defined.

(** A search 25 hours after the last one, then an hour's pause. *)
Lemma timestamps_only_advance_example :
  let get := details_are None in
  let search := search_yields [star_wars] false in
  let w := searched (hours 25) in
  let w1 := run_op get search any_row (Search "Star Wars") w in
  let w2 := run_op get search any_row (Sleep 3600000000) w1 in
  stamps_in_the_past w2 ∧ clock w ≤ clock w2 ∧
  ∃ last_search', search_term_table (db w2) !! "star wars"
                  = Some last_search' ∧
                  noon - hours 25 ≤ last_search'.
Proof.
  intros get search w w1 w2.
  destruct (timestamps_only_advance get search any_row
              [Search "Star Wars"; Sleep 3600000000] w w2
              stamps_in_the_past_searched) as (Hpast & Hc & Hn).
  { do 2 apply list_elem_of_further. apply list_elem_of_here. }
  split; [exact Hpast |]. split; [exact Hc |].
  apply (Hn "star wars"). closed.
Defined.

End MoreExamples.
